(** * Session lifecycle and optimistic mutation: a shallow embedding

    The development embeds the client-side core of the feedback board:
    - [Storage]      : frontend/src/utils/storage.ts   (class StorageService)
    - [Bus]          : frontend/src/utils/authEvents.ts (class AuthEventEmitter)
    - [TokenMonitor] : frontend/src/utils/tokenManager.ts (class TokenManager)
    - [Api]          : frontend/src/services/api.ts    (response interceptor)
    - [App]          : frontend/src/App.tsx            (handleUpvoteFeedback)
    - [Auth]         : frontend/src/services/auth.ts   (class AuthService)
    - [ApiRequest]   : frontend/src/services/api.ts    (request interceptor)
    - [AppHandlers]  : frontend/src/App.tsx            (handleDeleteFeedback,
                                                        handleSubmitFeedback)
    - [Form]         : frontend/src/components/FeedbackForm.tsx (handleSubmit)
    - [FeedbackList] : frontend/src/components/FeedbackList.tsx (sorting)
    - [AuthProvider] : frontend/src/contexts/AuthProvider.tsx

    JavaScript code that can throw is written in the monad [M W A] of
    state [W] and exceptions; [try_catch] is the try/catch statement. *)

From stdpp Require Import base option list strings gmap.
From Stdlib Require Import ZArith Lia Ascii.

Open Scope Z_scope.

(** ** Exceptions and state *)

Inductive Exc (A : Type) : Type :=
| Ok (a : A)
| Throw (e : string).
Arguments Ok {A} a.
Arguments Throw {A} e.

Definition is_ok {A} (r : Exc A) : bool :=
  match r with Ok _ => true | Throw _ => false end.

Definition M (W A : Type) : Type := W -> Exc A * W.

Definition ret {W A} (a : A) : M W A := fun w => (Ok a, w).

Definition throw {W A} (e : string) : M W A := fun w => (Throw e, w).

Definition bind {W A B} (m : M W A) (f : A -> M W B) : M W B := fun w =>
  match m w with
  | (Ok a, w') => f a w'
  | (Throw e, w') => (Throw e, w')
  end.

Definition try_catch {W A} (body : M W A) (handler : string -> M W A) : M W A :=
  fun w =>
    match body w with
    | (Ok a, w') => (Ok a, w')
    | (Throw e, w') => handler e w'
    end.

Definition gets {W A} (f : W -> A) : M W A := fun w => (Ok (f w), w).

(** A computation that reads nothing of the state. *)
Definition lift {W A} (r : Exc A) : M W A := fun w => (r, w).

Definition exc_bind {A B} (r : Exc A) (f : A -> Exc B) : Exc B :=
  match r with
  | Ok a => f a
  | Throw e => Throw e
  end.

Definition modify {W} (f : W -> W) : M W unit := fun w => (Ok tt, f w).

Declare Scope js_scope.
Delimit Scope js_scope with js.
Notation "'let*' x := m 'in' k" := (bind m (fun x => k))
  (at level 10, x pattern, m at level 100, k at level 200) : js_scope.
Notation "m ;; k" := (bind m (fun _ => k))
  (at level 100, k at level 200, right associativity) : js_scope.
Open Scope js_scope.

(** The empty string, [''] in the source. *)
Definition empty_string : string := EmptyString.

(** ** Storage Adapter (class StorageService) *)

Module Storage.

(** [window.localStorage].  Each of its methods can throw (SecurityError
    when storage is disabled or sandboxed, QuotaExceededError on write).
    Whether a given call throws is the browser's decision: [ls_faults]
    is the schedule of those decisions, one entry consumed per call
    ([true]: the call throws and leaves the items as they were).  An
    exhausted schedule means no further fault. *)
Record LocalStorage := {
  ls_items : gmap string string;
  ls_faults : list bool
}.

(** The fields of a StorageService instance. *)
Record StorageService := {
  isAvailable : bool;
  memoryStorage : gmap string string
}.

(** What the methods act on: the instance, the browser store and the
    console. *)
Record World := {
  this : StorageService;
  localStorage : LocalStorage;
  console : list string
}.

Definition set_this (s : StorageService) (w : World) : World :=
  {| this := s; localStorage := localStorage w; console := console w |}.

Definition set_localStorage (ls : LocalStorage) (w : World) : World :=
  {| this := this w; localStorage := ls; console := console w |}.

Definition console_log (msg : string) : M World unit := fun w =>
  (Ok tt, {| this := this w; localStorage := localStorage w;
             console := console w ++ [msg] |}).

(** One call of a localStorage method. *)
Definition ls_call {A} (f : gmap string string -> A * gmap string string)
  : M World A := fun w =>
  let ls := localStorage w in
  match ls_faults ls with
  | true :: rest =>
      (Throw "DOMException",
       set_localStorage {| ls_items := ls_items ls; ls_faults := rest |} w)
  | faults =>
      let '(a, items) := f (ls_items ls) in
      (Ok a, set_localStorage {| ls_items := items; ls_faults := tail faults |} w)
  end.

Definition localStorage_getItem (key : string) : M World (option string) :=
  ls_call (fun items => (items !! key, items)).

Definition localStorage_setItem (key value : string) : M World unit :=
  ls_call (fun items => (tt, <[key := value]> items)).

Definition localStorage_removeItem (key : string) : M World unit :=
  ls_call (fun items => (tt, delete key items)).

Definition localStorage_clear : M World unit :=
  ls_call (fun _ => (tt, ∅)).

(** [checkAvailability]: write and remove a sentinel key. *)
Definition checkAvailability : M World bool :=
  try_catch
    (let test := "__storage_test__" in
     localStorage_setItem test test ;;
     localStorage_removeItem test ;;
     ret true)
    (fun e =>
       console_log "localStorage not available, using memory storage:" ;;
       ret false).

(** [constructor]: memoryStorage = new Map(); isAvailable =
    checkAvailability(). *)
Definition constructor : M World unit :=
  modify (set_this {| isAvailable := false; memoryStorage := ∅ |}) ;;
  let* avail := checkAvailability in
  modify (fun w => set_this {| isAvailable := avail;
                               memoryStorage := memoryStorage (this w) |} w).

(** [new StorageService()] in a browser whose store is [ls]. *)
Definition StorageService_new (ls : LocalStorage) : World :=
  snd (constructor {| this := {| isAvailable := false; memoryStorage := ∅ |};
                      localStorage := ls; console := [] |}).

(** [x || null] on the result of [Map.get]: undefined and the empty
    string are falsy. *)
Definition or_null (v : option string) : option string :=
  match v with
  | Some s => if decide (s = empty_string) then None else Some s
  | None => None
  end.

(** [getItem].  The [return] inside [try] is the [Some] of the first
    step; falling out of the [if] is its [None]. *)
Definition getItem (key : string) : M World (option string) :=
  let* avail := gets (fun w => isAvailable (this w)) in
  let* returned :=
    (if avail : bool then
       try_catch
         (let* v := localStorage_getItem key in ret (Some v))
         (fun e => console_log "Error reading from localStorage:" ;; ret None)
     else ret None) in
  match returned with
  | Some v => ret v
  | None =>
      let* mem := gets (fun w => memoryStorage (this w)) in
      ret (or_null (mem !! key))
  end.

Definition update_memory (f : gmap string string -> gmap string string)
  : M World unit :=
  modify (fun w => set_this {| isAvailable := isAvailable (this w);
                               memoryStorage := f (memoryStorage (this w)) |} w).

(** The common shape of [setItem], [removeItem] and [clear]: try the
    browser store and return; on a throw log it and fall through to the
    map. *)
Definition try_local_else_memory (local : M World unit) (msg : string)
  (f : gmap string string -> gmap string string) : M World unit :=
  let* avail := gets (fun w => isAvailable (this w)) in
  let* returned :=
    (if avail : bool then
       try_catch (local ;; ret true) (fun e => console_log msg ;; ret false)
     else ret false) in
  if returned : bool then ret tt else update_memory f.

Definition setItem (key value : string) : M World unit :=
  try_local_else_memory (localStorage_setItem key value)
    "Error writing to localStorage:" (fun mem => <[key := value]> mem).

Definition removeItem (key : string) : M World unit :=
  try_local_else_memory (localStorage_removeItem key)
    "Error removing from localStorage:" (fun mem => delete key mem).

Definition clear : M World unit :=
  try_local_else_memory localStorage_clear
    "Error clearing localStorage:" (fun _ => ∅).

Definition isUsingLocalStorage : M World bool :=
  gets (fun w => isAvailable (this w)).

(** Calls of the public interface, and their results. *)
Inductive Op :=
| OpGet (key : string)
| OpSet (key value : string)
| OpRemove (key : string)
| OpClear.

Inductive Result :=
| RGet (v : option string)
| RVoid.

Definition run_op (op : Op) : M World Result :=
  match op with
  | OpGet k => let* v := getItem k in ret (RGet v)
  | OpSet k v => setItem k v ;; ret RVoid
  | OpRemove k => removeItem k ;; ret RVoid
  | OpClear => clear ;; ret RVoid
  end.

(** A caller that issues [ops] one after the other (and goes on after a
    throw, as a caller with its own try/catch would). *)
Fixpoint run_ops (ops : list Op) (w : World) : list (Exc Result) * World :=
  match ops with
  | [] => ([], w)
  | op :: rest =>
      let '(r, w') := run_op op w in
      let '(rs, w'') := run_ops rest w' in
      (r :: rs, w'')
  end.

(** The same calls on a bare in-process map: what "purely in-memory"
    means. *)
Definition mem_op (op : Op) (mem : gmap string string)
  : Result * gmap string string :=
  match op with
  | OpGet k => (RGet (or_null (mem !! k)), mem)
  | OpSet k v => (RVoid, <[k := v]> mem)
  | OpRemove k => (RVoid, delete k mem)
  | OpClear => (RVoid, ∅)
  end.

Fixpoint mem_ops (ops : list Op) (mem : gmap string string)
  : list (Exc Result) * gmap string string :=
  match ops with
  | [] => ([], mem)
  | op :: rest =>
      let '(r, mem') := mem_op op mem in
      let '(rs, mem'') := mem_ops rest mem' in
      (Ok r :: rs, mem'')
  end.

Definition with_memory (mem : gmap string string) (w : World) : World :=
  set_this {| isAvailable := isAvailable (this w); memoryStorage := mem |} w.

(** The sentinel probe fails when its write throws, or its write
    succeeds and its remove throws. *)
Definition probe_fails (ls : LocalStorage) : bool :=
  match ls_faults ls with
  | true :: _ => true
  | false :: true :: _ => true
  | _ => false
  end.

End Storage.

(** ** Event Bus (class AuthEventEmitter) *)

Module Bus.

Inductive AuthEventType := logout | unauthorized | token_expired.

#[global] Instance AuthEventType_eq_dec : EqDecision AuthEventType.
Proof. solve_decision. Defined.

(** A handler is a function object; the Set compares handlers by
    identity, which is all the emitter knows of them. *)
Definition Handler := nat.

(** [Set<AuthEventHandler>], as the [[SetData]] list of ECMA-262: elements
    in insertion order, a deleted element leaving an empty marker
    ([None]) in its place. *)
Abbreviation SetData := (list (option Handler)).

Definition Set_add (h : Handler) (d : SetData) : SetData :=
  if bool_decide (Some h ∈ d) then d else d ++ [Some h].

Definition Set_delete (h : Handler) (d : SetData) : SetData :=
  (fun e => if decide (e = Some h) then None else e) <$> d.

(** The values of the Set, in insertion order. *)
Definition Set_values (d : SetData) : list Handler := omap id d.

(** An emitter: the Map from event kinds to Set objects.  Sets are
    objects with identity, kept in [heap] and referred to by index; a
    delivery in progress holds on to its Set object even when [off] or
    [clear] drops it from the Map. *)
Record AuthEventEmitter := {
  handlers : AuthEventType -> option nat;
  heap : list SetData
}.

Definition Map_set (event : AuthEventType) (v : option nat)
  (m : AuthEventType -> option nat) : AuthEventType -> option nat :=
  fun e => if decide (e = event) then v else m e.

(** [constructor]: handlers = new Map(). *)
Definition AuthEventEmitter_new : AuthEventEmitter :=
  {| handlers := fun _ => None; heap := [] |}.

(** [on(event, handler)]; the function it returns is [unsubscribe event
    handler]. *)
Definition on (event : AuthEventType) (handler : Handler)
  (em : AuthEventEmitter) : AuthEventEmitter :=
  let em1 :=
    match handlers em event with
    | Some _ => em
    | None =>
        {| handlers := Map_set event (Some (length (heap em))) (handlers em);
           heap := heap em ++ [[]] |}
    end in
  match handlers em1 event with
  | Some r =>
      {| handlers := handlers em1;
         heap := alter (Set_add handler) r (heap em1) |}
  | None => em1
  end.

(** The closure returned by [on]: this.handlers.get(event)?.delete(handler). *)
Definition unsubscribe (event : AuthEventType) (handler : Handler)
  (em : AuthEventEmitter) : AuthEventEmitter :=
  match handlers em event with
  | Some r =>
      {| handlers := handlers em;
         heap := alter (Set_delete handler) r (heap em) |}
  | None => em
  end.

Definition off (event : AuthEventType) (em : AuthEventEmitter)
  : AuthEventEmitter :=
  {| handlers := Map_set event None (handlers em); heap := heap em |}.

Definition clear (em : AuthEventEmitter) : AuthEventEmitter :=
  {| handlers := fun _ => None; heap := heap em |}.

(** The handlers currently registered for [event], in registration
    order. *)
Definition registered (event : AuthEventType) (em : AuthEventEmitter)
  : list Handler :=
  match handlers em event with
  | Some r => Set_values (default [] (heap em !! r))
  | None => []
  end.

Section Delivery.

(** What the handlers do when called.  A handler runs on the caller's
    stack and may use the emitter itself (subscribe, unsubscribe, off,
    clear) and the rest of the application state [S]; it returns or it
    throws. *)
Context {S : Type}.
Variable body : Handler -> M (AuthEventEmitter * S) unit.

(** [Set.prototype.forEach(handler => handler())] on the Set object [r],
    from index [i] on: the list is read afresh at every step, so
    deletions and additions made by a handler are seen by the rest of the
    pass.  Nothing catches what a handler throws: the pass ends there and
    the exception goes on to the caller.  The result carries how the pass
    ended and the handlers called, in call order.  [None]: the fuel ran
    out (handlers that keep adding handlers make the loop run on). *)
Fixpoint forEach (fuel : nat) (r : nat) (i : nat)
  (st : AuthEventEmitter * S)
  : option (Exc unit * list Handler * (AuthEventEmitter * S)) :=
  match fuel with
  | O => None
  | Datatypes.S fuel' =>
      match default [] (heap (fst st) !! r) !! i with
      | None => Some (Ok tt, [], st)
      | Some None => forEach fuel' r (Datatypes.S i) st
      | Some (Some h) =>
          match body h st with
          | (Ok _, st1) =>
              match forEach fuel' r (Datatypes.S i) st1 with
              | Some (outcome, called, st') => Some (outcome, h :: called, st')
              | None => None
              end
          | (Throw e, st1) => Some (Throw e, [h], st1)
          end
      end
  end.

(** [emit(event)]. *)
Definition emit (fuel : nat) (event : AuthEventType)
  (st : AuthEventEmitter * S)
  : option (Exc unit * list Handler * (AuthEventEmitter * S)) :=
  match handlers (fst st) event with
  | Some r => forEach fuel r 0%nat st
  | None => Some (Ok tt, [], st)
  end.

(** How a delivery that ended stands to the pass [pass] it had before
    it: it returned, having called all of [pass]; or a handler threw [e],
    and the handlers called are those of [pass] up to and including that
    handler, the state being the one its throw left. *)
Definition delivered (outcome : Exc unit) (called pass : list Handler)
  (st' : AuthEventEmitter * S) : Prop :=
  match outcome with
  | Ok _ => called = pass
  | Throw e =>
      exists before h rest st_h,
        called = before ++ [h] /\ pass = called ++ rest
        /\ body h st_h = (Throw e, st')
  end.

End Delivery.

(** A delivery pass over the live set, for handlers that unsubscribe
    others: walk the registration order and skip every handler that a
    handler called earlier in the pass has unsubscribed.  [dead] holds
    the handlers unsubscribed so far. *)
Fixpoint live_pass (kills : Handler -> list Handler) (dead : list Handler)
  (l : list Handler) : list Handler :=
  match l with
  | [] => []
  | h :: rest =>
      if bool_decide (h ∈ dead) then live_pass kills dead rest
      else h :: live_pass kills (kills h ++ dead) rest
  end.

(** The body of a handler that unsubscribes the handlers [kills h] from
    [event], does nothing else and returns. *)
Definition unsubscribing_body {S : Type} (event : AuthEventType)
  (kills : Handler -> list Handler) (h : Handler)
  : M (AuthEventEmitter * S) unit :=
  fun st => (Ok tt, (foldr (unsubscribe event) (fst st) (kills h), snd st)).

(** The calls a program can make on the emitter, and the emitter a
    sequence of calls builds. *)
Inductive BusOp :=
| CallOn (event : AuthEventType) (handler : Handler)
| CallUnsubscribe (event : AuthEventType) (handler : Handler)
| CallOff (event : AuthEventType)
| CallClear.

Definition apply_op (op : BusOp) (em : AuthEventEmitter) : AuthEventEmitter :=
  match op with
  | CallOn event handler => on event handler em
  | CallUnsubscribe event handler => unsubscribe event handler em
  | CallOff event => off event em
  | CallClear => clear em
  end.

Definition build (ops : list BusOp) : AuthEventEmitter :=
  foldl (fun em op => apply_op op em) AuthEventEmitter_new ops.

(** The number of entries, markers included, of the Set of [event]: the
    length of a delivery pass. *)
Definition pass_length (event : AuthEventType) (em : AuthEventEmitter) : nat :=
  match handlers em event with
  | Some r => length (default [] (heap em !! r))
  | None => 0
  end.

End Bus.

(** ** JavaScript values, as far as the token code looks at them *)

Module JS.

(** Numbers.  Timestamps and delays are integers well inside the range
    in which JavaScript's arithmetic on them is exact, so a number is an
    integer or [NaN]. *)
Inductive JsNumber := NaN | Num (z : Z).

(** What [JSON.parse] can return, and [undefined] for an absent
    property. *)
#[warnings="-register-all"]
Inductive JsValue :=
| JUndefined
| JNull
| JBool (b : bool)
| JNumber (n : JsNumber)
| JString (s : string)
| JArray (elems : list JsValue)
| JObject (fields : list (string * JsValue)).

(** ToBoolean: what [!v] tests. *)
Definition truthy (v : JsValue) : bool :=
  match v with
  | JUndefined | JNull => false
  | JBool b => b
  | JNumber NaN => false
  | JNumber (Num z) => negb (z =? 0)
  | JString s => negb (bool_decide (s = empty_string))
  | JArray _ | JObject _ => true
  end.

Fixpoint lookup_field (name : string) (fields : list (string * JsValue))
  : JsValue :=
  match fields with
  | [] => JUndefined
  | (k, v) :: rest =>
      if decide (k = name) then v else lookup_field name rest
  end.

(** [v.name] for a name that no prototype defines: a TypeError on null
    and undefined, the own property of an object, undefined otherwise. *)
Definition get_prop (v : JsValue) (name : string) : Exc JsValue :=
  match v with
  | JUndefined | JNull => Throw "TypeError"
  | JObject fields => Ok (lookup_field name fields)
  | _ => Ok JUndefined
  end.

Definition mul (a b : JsNumber) : JsNumber :=
  match a, b with
  | Num x, Num y => Num (x * y)
  | _, _ => NaN
  end.

Definition sub (a b : JsNumber) : JsNumber :=
  match a, b with
  | Num x, Num y => Num (x - y)
  | _, _ => NaN
  end.

(** [a <= b] and [a > b]: false as soon as an operand is NaN. *)
Definition le (a b : JsNumber) : bool :=
  match a, b with
  | Num x, Num y => x <=? y
  | _, _ => false
  end.

Definition gt (a b : JsNumber) : bool :=
  match a, b with
  | Num x, Num y => y <? x
  | _, _ => false
  end.

(** [!n] for [n : number | null]. *)
Definition number_falsy (n : option JsNumber) : bool :=
  match n with
  | None => true
  | Some NaN => true
  | Some (Num z) => z =? 0
  end.

(** The functions of the JavaScript platform that the token code calls
    and does not define.  [atob] throws on input that is not base64,
    [JSON_parse] on input that is not JSON.  [StringToNumber] is ToNumber
    on strings; [ObjectToNumber] is ToNumber on arrays and objects, which
    throws a TypeError when the value has no usable [valueOf] or
    [toString]. *)
Record Platform := {
  atob : string -> Exc string;
  JSON_parse : string -> Exc JsValue;
  StringToNumber : string -> JsNumber;
  ObjectToNumber : JsValue -> Exc JsNumber
}.

(** ToNumber, applied by [*] to its operands. *)
Definition ToNumber (P : Platform) (v : JsValue) : Exc JsNumber :=
  match v with
  | JUndefined => Ok NaN
  | JNull => Ok (Num 0)
  | JBool b => Ok (Num (if b then 1 else 0))
  | JNumber n => Ok n
  | JString s => Ok (StringToNumber P s)
  | JArray _ | JObject _ => ObjectToNumber P v
  end.

(** [s.split(sep)] for a one-character separator. *)
Fixpoint split (sep : Ascii.ascii) (s : string) : list string :=
  match s with
  | EmptyString => [EmptyString]
  | String c rest =>
      if decide (c = sep) then EmptyString :: split sep rest
      else match split sep rest with
           | [] => [String c EmptyString]
           | first :: others => String c first :: others
           end
  end.

(** [s.replace(/c/g, d)] for single characters [c] and [d]. *)
Fixpoint replace_all (c d : Ascii.ascii) (s : string) : string :=
  match s with
  | EmptyString => EmptyString
  | String x rest =>
      String (if decide (x = c) then d else x) (replace_all c d rest)
  end.

End JS.

(** ** Session Monitor (class TokenManager) *)

Module TokenMonitor.
Import JS.

Record TokenExpiryConfig := {
  warningMinutes : Z;
  refreshMinutes : Z;
  logoutCountdownSeconds : Z
}.

(** What the registered refresh callback's promise does. *)
Inductive RefreshOutcome :=
| RefreshResolves (success : bool)
| RefreshRejects.

(** The elements the manager puts on the page. *)
Inductive Notification :=
| ExpiryWarning (minutes : Z)
| RefreshSuccess
| RefreshFailed
| LogoutModal.

(** The callbacks handed to [setTimeout], each with the variables it
    closes over. *)
Inductive TimerAction :=
| DoShowExpiryWarning
| DoAttemptTokenRefresh
| DoHandleTokenExpiry
| DoRemoveNotification (n : Notification)
| DoUpdateCountdown (countdown : Z).

(** What an observer of the manager sees. *)
Inductive Effect :=
| Shown (n : Notification)
| Removed (n : Notification)
| CountdownText (seconds : Z)
| Called_onTokenRefresh
| Called_onTokenExpiry
| ConsoleLog (msg : string).

Record Timer := {
  timer_id : positive;
  timer_due : Z;
  timer_action : TimerAction
}.

(** The fields of a TokenManager.  A registered callback is opaque to
    the manager: [onTokenExpiry] records that one is set, [onTokenRefresh]
    what its promise will do. *)
Record TokenManager := {
  warningTimer : option positive;
  refreshTimer : option positive;
  logoutTimer : option positive;
  config : TokenExpiryConfig;
  onTokenExpiry : bool;
  onTokenRefresh : option RefreshOutcome
}.

(** The manager, the timers of the event loop and the clock.  [clock]
    counts milliseconds from an arbitrary origin; [Date.now()] is
    [time_origin + clock].  [effects] is the history of what was
    observed, each entry with the clock at which it happened. *)
Record World := {
  this : TokenManager;
  timers : list Timer;
  next_timer : positive;
  time_origin : Z;
  clock : Z;
  effects : list (Z * Effect)
}.

Definition set_this (f : TokenManager -> TokenManager) (w : World) : World :=
  {| this := f (this w); timers := timers w; next_timer := next_timer w;
     time_origin := time_origin w; clock := clock w; effects := effects w |}.

Definition set_timers (ts : list Timer) (w : World) : World :=
  {| this := this w; timers := ts; next_timer := next_timer w;
     time_origin := time_origin w; clock := clock w; effects := effects w |}.

Definition set_clock (t : Z) (w : World) : World :=
  {| this := this w; timers := timers w; next_timer := next_timer w;
     time_origin := time_origin w; clock := t; effects := effects w |}.

Definition observe (e : Effect) (w : World) : World :=
  {| this := this w; timers := timers w; next_timer := next_timer w;
     time_origin := time_origin w; clock := clock w;
     effects := effects w ++ [(clock w, e)] |}.

Definition Date_now (w : World) : Z := time_origin w + clock w.

(** The delay as the browser's timer takes it (HTML Standard, timer
    initialisation steps): the number is converted to a 32-bit signed
    integer (a WebIDL long: modulo 2^32, into -2^31 .. 2^31 - 1; NaN gives
    0), and a negative result counts as 0.  A delay above 2147483647 ms is
    therefore not waited for: between 2^31 and 2^32 it comes out negative
    and the timer is due at once. *)
Definition ToInt32 (z : Z) : Z :=
  (z + 2147483648) mod 4294967296 - 2147483648.

Definition timer_delay (delay : JsNumber) : Z :=
  match delay with
  | Num z => Z.max 0 (ToInt32 z)
  | NaN => 0
  end.

(** [setTimeout(action, delay)]: a fresh timer id. *)
Definition setTimeout (action : TimerAction) (delay : JsNumber) (w : World)
  : positive * World :=
  let ms := timer_delay delay in
  let id := next_timer w in
  (id,
   {| this := this w;
      timers := timers w ++ [{| timer_id := id; timer_due := clock w + ms;
                                timer_action := action |}];
      next_timer := Pos.succ id;
      time_origin := time_origin w; clock := clock w; effects := effects w |}).

Definition clearTimeout (id : positive) (w : World) : World :=
  set_timers (filter (fun t => timer_id t ≠ id) (timers w)) w.

Definition default_config : TokenExpiryConfig :=
  {| warningMinutes := 5; refreshMinutes := 2; logoutCountdownSeconds := 30 |}.

(** [constructor(config = {})]: the defaults, overridden by the fields
    given. *)
Definition TokenManager_new (warning refresh countdown : option Z)
  : TokenManager :=
  {| warningTimer := None; refreshTimer := None; logoutTimer := None;
     config := {| warningMinutes := default (warningMinutes default_config) warning;
                  refreshMinutes := default (refreshMinutes default_config) refresh;
                  logoutCountdownSeconds :=
                    default (logoutCountdownSeconds default_config) countdown |};
     onTokenExpiry := false; onTokenRefresh := None |}.

Definition setOnTokenExpiry (w : World) : World :=
  set_this (fun tm =>
    {| warningTimer := warningTimer tm; refreshTimer := refreshTimer tm;
       logoutTimer := logoutTimer tm; config := config tm;
       onTokenExpiry := true; onTokenRefresh := onTokenRefresh tm |}) w.

Definition setOnTokenRefresh (callback : RefreshOutcome) (w : World) : World :=
  set_this (fun tm =>
    {| warningTimer := warningTimer tm; refreshTimer := refreshTimer tm;
       logoutTimer := logoutTimer tm; config := config tm;
       onTokenExpiry := onTokenExpiry tm; onTokenRefresh := Some callback |}) w.

Definition set_warningTimer (v : option positive) : World -> World :=
  set_this (fun tm =>
    {| warningTimer := v; refreshTimer := refreshTimer tm;
       logoutTimer := logoutTimer tm; config := config tm;
       onTokenExpiry := onTokenExpiry tm; onTokenRefresh := onTokenRefresh tm |}).

Definition set_refreshTimer (v : option positive) : World -> World :=
  set_this (fun tm =>
    {| warningTimer := warningTimer tm; refreshTimer := v;
       logoutTimer := logoutTimer tm; config := config tm;
       onTokenExpiry := onTokenExpiry tm; onTokenRefresh := onTokenRefresh tm |}).

Definition set_logoutTimer (v : option positive) : World -> World :=
  set_this (fun tm =>
    {| warningTimer := warningTimer tm; refreshTimer := refreshTimer tm;
       logoutTimer := v; config := config tm;
       onTokenExpiry := onTokenExpiry tm; onTokenRefresh := onTokenRefresh tm |}).

Section WithPlatform.

Variable P : Platform.

(** The [try] block of [decodeToken]: it reads nothing but [token]. *)
Definition decode_payload (token : string) : Exc JsValue :=
  let parts := split "."%char token in
  if negb (length parts =? 3)%nat then Ok JNull
  else
    let payload := nth 1 parts EmptyString in
    exc_bind
      (atob P (replace_all "_"%char "/"%char
                 (replace_all "-"%char "+"%char payload)))
      (fun decoded => JSON_parse P decoded).

(** [decodeToken]: the payload, or null. *)
Definition decodeToken (token : string) : M World JsValue :=
  try_catch
    (lift (decode_payload token))
    (fun e => modify (observe (ConsoleLog "Failed to decode token:")) ;;
              ret JNull).

(** The body of [getTokenExpiry] below its first line.  [||] does not
    evaluate [payload.exp] when [!payload] holds. *)
Definition payload_expiry (payload : JsValue) : Exc (option JsNumber) :=
  exc_bind
    (if negb (truthy payload) then Ok true
     else exc_bind (get_prop payload "exp")
            (fun exp => Ok (negb (truthy exp))))
    (fun absent =>
       if absent : bool then Ok None
       else
         exc_bind (get_prop payload "exp") (fun exp =>
         exc_bind (ToNumber P exp) (fun n =>
         Ok (Some (mul n (Num 1000)))))).

(** [getTokenExpiry]: milliseconds, or null. *)
Definition getTokenExpiry (token : string) : M World (option JsNumber) :=
  let* payload := decodeToken token in
  lift (payload_expiry payload).

(** [getTimeUntilExpiry]. *)
Definition getTimeUntilExpiry (token : string) : M World (option JsNumber) :=
  let* expiry := getTokenExpiry token in
  if number_falsy expiry then ret None
  else
    let* now := gets Date_now in
    ret (Some (sub (default NaN expiry) (Num now))).

(** [isTokenExpired]. *)
Definition isTokenExpired (token : string) : M World bool :=
  let* timeUntilExpiry := getTimeUntilExpiry token in
  ret (match timeUntilExpiry with
       | None => true
       | Some t => le t (Num 0)
       end).

(** [stopMonitoring]. *)
Definition stopMonitoring (w : World) : World :=
  let w1 := match warningTimer (this w) with
            | Some id => set_warningTimer None (clearTimeout id w)
            | None => w
            end in
  let w2 := match refreshTimer (this w1) with
            | Some id => set_refreshTimer None (clearTimeout id w1)
            | None => w1
            end in
  match logoutTimer (this w2) with
  | Some id => set_logoutTimer None (clearTimeout id w2)
  | None => w2
  end.

(** [startMonitoring]. *)
Definition startMonitoring (token : string) : M World unit :=
  modify stopMonitoring ;;
  let* expired :=
    (if bool_decide (token = empty_string) then ret true
     else isTokenExpired token) in
  if expired : bool then ret tt
  else
    let* timeUntilExpiry := getTimeUntilExpiry token in
    if number_falsy timeUntilExpiry then ret tt
    else
      let timeUntilExpiry := default NaN timeUntilExpiry in
      let* cfg := gets (fun w => config (this w)) in
      let warningTime := Num (warningMinutes cfg * 60 * 1000) in
      let refreshTime := Num (refreshMinutes cfg * 60 * 1000) in
      (if gt timeUntilExpiry warningTime then
         let warningDelay := sub timeUntilExpiry warningTime in
         modify (fun w =>
           let '(id, w') := setTimeout DoShowExpiryWarning warningDelay w in
           set_warningTimer (Some id) w')
       else ret tt) ;;
      (if gt timeUntilExpiry refreshTime then
         let refreshDelay := sub timeUntilExpiry refreshTime in
         modify (fun w =>
           let '(id, w') := setTimeout DoAttemptTokenRefresh refreshDelay w in
           set_refreshTimer (Some id) w')
       else ret tt) ;;
      modify (fun w =>
        let '(id, w') := setTimeout DoHandleTokenExpiry timeUntilExpiry w in
        set_logoutTimer (Some id) w').

(** What the three functions above compute, read off their code: the
    expiry that [token] carries, and the world a decoding leaves (the
    catch block logs to the console). *)
Definition token_expiry (token : string) : Exc (option JsNumber) :=
  payload_expiry
    (match decode_payload token with Ok v => v | Throw _ => JNull end).

Definition after_decode (token : string) (w : World) : World :=
  match decode_payload token with
  | Ok _ => w
  | Throw _ => observe (ConsoleLog "Failed to decode token:") w
  end.

(** The credentials the specification calls malformed: not three
    dot-separated segments, a payload that does not decode to JSON, or
    claims without [exp]. *)
Definition malformed (token : string) : bool :=
  let parts := split "."%char token in
  if negb (length parts =? 3)%nat then true
  else
    match atob P (replace_all "_"%char "/"%char
                    (replace_all "-"%char "+"%char (nth 1 parts EmptyString))) with
    | Throw _ => true
    | Ok decoded =>
        match JSON_parse P decoded with
        | Throw _ => true
        | Ok (JObject fields) =>
            match lookup_field "exp" fields with
            | JUndefined => true
            | _ => false
            end
        | Ok _ => true
        end
    end.

End WithPlatform.

(** [showExpiryWarning]: the notification, and its removal 10 seconds
    later. *)
Definition showExpiryWarning (w : World) : World :=
  let minutes := warningMinutes (config (this w)) in
  let w1 := observe (Shown (ExpiryWarning minutes)) w in
  snd (setTimeout (DoRemoveNotification (ExpiryWarning minutes)) (Num 10000) w1).

Definition showRefreshSuccess (w : World) : World :=
  let w1 := observe (Shown RefreshSuccess) w in
  snd (setTimeout (DoRemoveNotification RefreshSuccess) (Num 3000) w1).

Definition showRefreshFailed (w : World) : World :=
  let w1 := observe (Shown RefreshFailed) w in
  snd (setTimeout (DoRemoveNotification RefreshFailed) (Num 5000) w1).

(** [attemptTokenRefresh]; the awaited promise settles at once. *)
Definition attemptTokenRefresh (w : World) : World :=
  match onTokenRefresh (this w) with
  | None => w
  | Some outcome =>
      let w1 := observe Called_onTokenRefresh w in
      match outcome with
      | RefreshResolves true =>
          showRefreshSuccess
            (observe (ConsoleLog "Token refreshed successfully") w1)
      | RefreshResolves false =>
          showRefreshFailed (observe (ConsoleLog "Token refresh failed") w1)
      | RefreshRejects =>
          showRefreshFailed (observe (ConsoleLog "Token refresh error:") w1)
      end
  end.

(** [updateCountdown], the closure of [showLogoutCountdown], with the
    current value of its variable [countdown]. *)
Definition updateCountdown (countdown : Z) (w : World) : World :=
  let w1 := observe (CountdownText countdown) w in
  let countdown := countdown - 1 in
  if countdown <? 0 then
    let w2 := if onTokenExpiry (this w1)
              then observe Called_onTokenExpiry w1 else w1 in
    observe (Removed LogoutModal) w2
  else snd (setTimeout (DoUpdateCountdown countdown) (Num 1000) w1).

(** [showLogoutCountdown]. *)
Definition showLogoutCountdown (w : World) : World :=
  let countdown := logoutCountdownSeconds (config (this w)) in
  updateCountdown countdown (observe (Shown LogoutModal) w).

(** [handleTokenExpiry]. *)
Definition handleTokenExpiry (w : World) : World :=
  if onTokenExpiry (this w) then showLogoutCountdown w else w.

Definition run_action (a : TimerAction) (w : World) : World :=
  match a with
  | DoShowExpiryWarning => showExpiryWarning w
  | DoAttemptTokenRefresh => attemptTokenRefresh w
  | DoHandleTokenExpiry => handleTokenExpiry w
  | DoRemoveNotification n => observe (Removed n) w
  | DoUpdateCountdown countdown => updateCountdown countdown w
  end.

(** The event loop: the timer that is due first runs first, timers due
    at the same time in the order they were set. *)
Definition earlier (a b : Timer) : bool :=
  (timer_due a <? timer_due b)
  || ((timer_due a =? timer_due b) && (timer_id a <? timer_id b)%positive).

Fixpoint next_timer_due (ts : list Timer) : option Timer :=
  match ts with
  | [] => None
  | t :: rest =>
      match next_timer_due rest with
      | Some u => if earlier u t then Some u else Some t
      | None => Some t
      end
  end.

Definition fire (t : Timer) (w : World) : World :=
  run_action (timer_action t)
    (set_clock (Z.max (clock w) (timer_due t)) (clearTimeout (timer_id t) w)).

(** Let the clock advance to [deadline], running every timer that comes
    due on the way.  [None]: the fuel ran out. *)
Fixpoint advance (fuel : nat) (deadline : Z) (w : World) : option World :=
  match fuel with
  | O => None
  | S fuel' =>
      match next_timer_due (timers w) with
      | Some t =>
          if timer_due t <=? deadline then advance fuel' deadline (fire t w)
          else Some (set_clock (Z.max (clock w) deadline) w)
      | None => Some (set_clock (Z.max (clock w) deadline) w)
      end
  end.

(** A page that has just created its manager. *)
Definition initial_world (tm : TokenManager) (origin : Z) : World :=
  {| this := tm; timers := []; next_timer := 1%positive;
     time_origin := origin; clock := 0; effects := [] |}.

(** The clock values at which the expiry callback was called. *)
Definition expiry_callback_times (w : World) : list Z :=
  omap (fun e => match snd e with
                 | Called_onTokenExpiry => Some (fst e)
                 | _ => None
                 end) (effects w).

(** A timer without its id: when it is due and what it runs. *)
Definition due_action (x : Timer) : Z * TimerAction :=
  (timer_due x, timer_action x).

(** Timer ids are handed out in increasing order: every timer that is
    set has an id below the next one to be handed out. *)
Definition ids_fresh (w : World) : Prop :=
  forall x, x ∈ timers w -> (timer_id x < next_timer w)%positive.

(** The observations of a history that fall at clock [t]. *)
Definition effects_at (t : Z) (w : World) : list Effect :=
  snd <$> filter (fun e => fst e = t) (effects w).

End TokenMonitor.

(** ** Transport Guard (the response interceptor of services/api.ts) *)

Module Api.

Record AxiosResponse := { status : Z }.

(** The error axios hands to the interceptor; [response] is absent when
    the request got no response at all. *)
Record AxiosError := {
  message : string;
  response : option AxiosResponse
}.

(** A promise that is settled. *)
Inductive Settled (A : Type) :=
| Fulfilled (value : A)
| Rejected (reason : AxiosError)
| RejectedThrown (e : string).
Arguments Fulfilled {A} value.
Arguments Rejected {A} reason.
Arguments RejectedThrown {A} e.

(** The singletons the interceptor touches: [authEvents] and [storage]. *)
Definition World : Type := Bus.AuthEventEmitter * Storage.World.

(** [error.response?.status === 401]. *)
Definition is_unauthorized (error : AxiosError) : bool :=
  match response error with
  | Some r => status r =? 401
  | None => false
  end.

Section Interceptor.

Variable body : Bus.Handler -> M World unit.

(** The rejection handler given to [api.interceptors.response.use].  A
    throw inside it, which an event handler can cause, rejects the
    promise with what was thrown.  With the promise comes the list of
    event handlers called.  [None]: the delivery ran out of fuel. *)
Definition onRejected (fuel : nat) (error : AxiosError) (w : World)
  : option (Settled AxiosResponse * list Bus.Handler * World) :=
  if is_unauthorized error then
    match Storage.removeItem "auth_token" (snd w) with
    | (Throw e, sw) => Some (RejectedThrown e, [], (fst w, sw))
    | (Ok _, sw) =>
        match Bus.emit body fuel Bus.unauthorized (fst w, sw) with
        | Some (Ok _, called, w') => Some (Rejected error, called, w')
        | Some (Throw e, called, w') => Some (RejectedThrown e, called, w')
        | None => None
        end
    end
  else Some (Rejected error, [], w).

End Interceptor.

End Api.

(** ** Optimistic Mutation Coordinator (handleUpvoteFeedback of App.tsx) *)

Module App.

Record Feedback := {
  id : Z;
  text : string;
  upvotes : Z;
  user_id : Z;
  user_email : string;
  created_at : string;
  updated_at : option string;
  has_upvoted : bool
}.

Record UpvoteResponse := {
  resp_id : Z;
  resp_upvotes : Z;
  resp_has_upvoted : bool;
  resp_message : string
}.

(** [{ ...feedback, upvotes: u, has_upvoted: h }]. *)
Definition with_votes (feedback : Feedback) (u : Z) (h : bool) : Feedback :=
  {| id := id feedback; text := text feedback; upvotes := u;
     user_id := user_id feedback; user_email := user_email feedback;
     created_at := created_at feedback; updated_at := updated_at feedback;
     has_upvoted := h |}.

(** The state of AppContent that the handler writes. *)
Record AppState := {
  feedbacks : list Feedback;
  error : string;
  console : list string
}.

(** An async function of the component, as the sequence of what it does:
    state updates, one awaited request, and how its promise settles. *)
Inductive Async :=
| SetFeedbacks (updater : list Feedback -> list Feedback) (next : Async)
| SetError (msg : string) (next : Async)
| ConsoleError (msg : string) (next : Async)
| AwaitUpvote (id : Z) (resume : Exc UpvoteResponse -> Async)
| Resolve
| Reject (e : string).

(** [feedbacks.find(f => f.id === id)]. *)
Definition find_feedback (fs : list Feedback) (i : Z) : option Feedback :=
  List.find (fun f => id f =? i) fs.

(** [prev.map(feedback => feedback.id === id ? {...} : feedback)]. *)
Definition set_votes (i : Z) (u : Z) (h : bool) (prev : list Feedback)
  : list Feedback :=
  (fun feedback => if id feedback =? i then with_votes feedback u h
                   else feedback) <$> prev.

(** [handleUpvoteFeedback].  [feedbacks] is the list of the render that
    created the handler: the closure reads it, while the updaters given
    to [setFeedbacks] receive the current list. *)
Definition handleUpvoteFeedback (feedbacks : list Feedback) (i : Z) : Async :=
  match find_feedback feedbacks i with
  | None => Resolve
  | Some targetFeedback =>
      let wasUpvoted := has_upvoted targetFeedback in
      let optimisticUpvotes :=
        if wasUpvoted then upvotes targetFeedback - 1
        else upvotes targetFeedback + 1 in
      SetFeedbacks (set_votes i optimisticUpvotes (negb wasUpvoted))
        (SetError empty_string
           (AwaitUpvote i (fun result =>
              match result with
              | Ok response =>
                  SetFeedbacks
                    (set_votes i (resp_upvotes response)
                       (resp_has_upvoted response))
                    Resolve
              | Throw err =>
                  SetFeedbacks
                    (set_votes i (upvotes targetFeedback)
                       (has_upvoted targetFeedback))
                    (SetError "Failed to upvote feedback. Please try again."
                       (ConsoleError "Error upvoting feedback:" Resolve))
              end)))
  end.

(** Where an async function stands after running as far as it can. *)
Inductive Status :=
| Pending (id : Z) (resume : Exc UpvoteResponse -> Async)
| DoneResolved
| DoneRejected (e : string).

(** Run to the next await or to the end. *)
Fixpoint run (p : Async) (st : AppState) : Status * AppState :=
  match p with
  | SetFeedbacks updater next =>
      run next {| feedbacks := updater (feedbacks st); error := error st;
                  console := console st |}
  | SetError msg next =>
      run next {| feedbacks := feedbacks st; error := msg;
                  console := console st |}
  | ConsoleError msg next =>
      run next {| feedbacks := feedbacks st; error := error st;
                  console := console st ++ [msg] |}
  | AwaitUpvote i resume => (Pending i resume, st)
  | Resolve => (DoneResolved, st)
  | Reject e => (DoneRejected e, st)
  end.

(** The component over time: its state, the list its last render showed
    (which new handler calls close over), and the calls of the handler so
    far, in call order. *)
Record System := {
  app : AppState;
  rendered : list Feedback;
  calls : list Status
}.

Inductive Event :=
| Toggle (id : Z)
| Render
| Respond (call : nat) (result : Exc UpvoteResponse).

Definition step (ev : Event) (s : System) : System :=
  match ev with
  | Toggle i =>
      let '(status, st) := run (handleUpvoteFeedback (rendered s) i) (app s) in
      {| app := st; rendered := rendered s; calls := calls s ++ [status] |}
  | Render =>
      {| app := app s; rendered := feedbacks (app s); calls := calls s |}
  | Respond n result =>
      match calls s !! n with
      | Some (Pending _ resume) =>
          let '(status, st) := run (resume result) (app s) in
          {| app := st; rendered := rendered s;
             calls := <[n := status]> (calls s) |}
      | _ => s
      end
  end.

Definition run_events (evs : list Event) (s : System) : System :=
  foldl (fun s ev => step ev s) s evs.

Definition start (fs : list Feedback) : System :=
  {| app := {| feedbacks := fs; error := empty_string; console := [] |};
     rendered := fs; calls := [] |}.

(** The votes the cache shows for entity [i]. *)
Definition votes_of (i : Z) (s : System) : option (Z * bool) :=
  (fun f => (upvotes f, has_upvoted f)) <$> find_feedback (feedbacks (app s)) i.

End App.

(** ** Concrete inputs *)

Module Examples.
Import JS.

(** The double quote character, and the JSON text [{"exp":digits}]. *)
Definition dq : string := String (ascii_of_nat 34) EmptyString.

Definition json_exp (digits : string) : string :=
  "{" +:+ dq +:+ "exp" +:+ dq +:+ ":" +:+ digits +:+ "}".

Definition json_sub : string :=
  "{" +:+ dq +:+ "sub" +:+ dq +:+ ":" +:+ dq +:+ "1" +:+ dq +:+ "}".

(** The platform functions on the strings used below: base64 of the
    three payloads, and the JSON values of their texts.  Everything else
    is reported as not decodable. *)
Definition example_atob (s : string) : Exc string :=
  if decide (s = "eyJleHAiOjE3MDAwMDA2MDB9") then Ok (json_exp "1700000600")
  else if decide (s = "eyJleHAiOjE2OTk5OTkwMDB9") then Ok (json_exp "1699999000")
  else if decide (s = "eyJzdWIiOiIxIn0") then Ok json_sub
  else Throw "InvalidCharacterError".

Definition example_JSON_parse (s : string) : Exc JsValue :=
  if decide (s = json_exp "1700000600")
  then Ok (JObject [("exp", JNumber (Num 1700000600))])
  else if decide (s = json_exp "1699999000")
  then Ok (JObject [("exp", JNumber (Num 1699999000))])
  else if decide (s = json_sub) then Ok (JObject [("sub", JString "1")])
  else Throw "SyntaxError".

Definition example_platform : Platform :=
  {| atob := example_atob;
     JSON_parse := example_JSON_parse;
     StringToNumber := fun _ => NaN;
     ObjectToNumber := fun _ => Ok NaN |}.

(** Three-segment credentials with those payloads, one credential whose
    payload is not base64, and one with a single segment. *)
Definition token_ten_minutes : string :=
  "eyJhbGciOiJIUzI1NiJ9.eyJleHAiOjE3MDAwMDA2MDB9.c2ln".

Definition token_past : string :=
  "eyJhbGciOiJIUzI1NiJ9.eyJleHAiOjE2OTk5OTkwMDB9.c2ln".

Definition token_no_exp : string :=
  "eyJhbGciOiJIUzI1NiJ9.eyJzdWIiOiIxIn0.c2ln".

Definition token_not_base64 : string := "a.b.c".

Definition token_one_segment : string := "not-a-token".

(** The page at [Date.now() = 1700000000000] with the default manager
    and both callbacks registered, as AuthService sets them up (its
    refresh callback resolves to false). *)
Definition monitor_world : TokenMonitor.World :=
  TokenMonitor.setOnTokenRefresh (TokenMonitor.RefreshResolves false)
    (TokenMonitor.setOnTokenExpiry
       (TokenMonitor.initial_world
          (TokenMonitor.TokenManager_new None None None) 1700000000000)).

(** A browser store that works during construction and throws on the
    next call. *)
Definition store_failing_later : Storage.LocalStorage :=
  {| Storage.ls_items := ∅; Storage.ls_faults := [false; false; true] |}.

(** A browser store whose first call throws. *)
Definition store_unavailable : Storage.LocalStorage :=
  {| Storage.ls_items := ∅; Storage.ls_faults := [true] |}.

(** A working browser store that holds a credential. *)
Definition store_with_token : Storage.LocalStorage :=
  {| Storage.ls_items := {[ "auth_token" := token_ten_minutes ]};
     Storage.ls_faults := [] |}.

(** Two handlers on [unauthorized]; handler 0 unsubscribes handler 1. *)
Definition two_handlers : Bus.AuthEventEmitter :=
  Bus.build [Bus.CallOn Bus.unauthorized 0%nat;
             Bus.CallOn Bus.unauthorized 1%nat].

Definition first_kills_second (h : Bus.Handler) : list Bus.Handler :=
  match h with
  | O => [1%nat]
  | _ => []
  end.

(** A handler that leaves everything as it is. *)
Definition idle_body (h : Bus.Handler) : M Api.World unit := ret tt.

(** Handlers of which handler 0 throws. *)
Definition first_throws (h : Bus.Handler) : M Api.World unit :=
  if decide (h = 0%nat) then throw "boom" else ret tt.

Definition error_401 : Api.AxiosError :=
  {| Api.message := "Request failed with status code 401";
     Api.response := Some {| Api.status := 401 |} |}.

(** One feedback entry, not yet upvoted by the viewer. *)
Definition feedback1 : App.Feedback :=
  {| App.id := 1; App.text := "Dark mode, please"; App.upvotes := 0;
     App.user_id := 7; App.user_email := "a@example.org";
     App.created_at := "2024-01-01T00:00:00"; App.updated_at := None;
     App.has_upvoted := false |}.

(** The server's answers to a first and a second toggle of it. *)
Definition response_first : App.UpvoteResponse :=
  {| App.resp_id := 1; App.resp_upvotes := 1; App.resp_has_upvoted := true;
     App.resp_message := "Upvoted" |}.

Definition response_second : App.UpvoteResponse :=
  {| App.resp_id := 1; App.resp_upvotes := 0; App.resp_has_upvoted := false;
     App.resp_message := "Upvote removed" |}.

(** An answer to the first toggle that counts the votes of others. *)
Definition response_late : App.UpvoteResponse :=
  {| App.resp_id := 1; App.resp_upvotes := 7; App.resp_has_upvoted := true;
     App.resp_message := "Upvoted" |}.

End Examples.

(** ** Authentication service (class AuthService of services/auth.ts, the
    version that uses the token manager) *)

Module Auth.
Import JS.

(** The service's field [token], and the two singletons it calls:
    [storage] and [tokenManager]. *)
Record World := {
  token : option string;
  storage : Storage.World;
  tokenManager : TokenMonitor.World
}.

Definition on_storage {A} (m : M Storage.World A) : M World A := fun w =>
  let '(r, sw) := m (storage w) in
  (r, {| token := token w; storage := sw; tokenManager := tokenManager w |}).

Definition on_tokenManager {A} (m : M TokenMonitor.World A) : M World A :=
  fun w =>
    let '(r, tw) := m (tokenManager w) in
    (r, {| token := token w; storage := storage w; tokenManager := tw |}).

Definition set_token (t : option string) : M World unit :=
  modify (fun w => {| token := t; storage := storage w;
                      tokenManager := tokenManager w |}).

(** What the server answers to a login, a registration and a request
    for the current user, as far as the service looks at it: a
    [fetch] that rejects, a response that is not [ok] (with the
    [detail] string of its body, if it has one, or its status), or the
    body of a response that is. *)
Inductive LoginReply :=
| LoginFetchFails (e : string)
| LoginNotOk (detail : option string)
| LoginOk (access_token token_type : string).

Inductive UserReply (User : Type) :=
| UserFetchFails (e : string)
| UserNotOk (status : Z)
| UserOk (user : User).
Arguments UserFetchFails {User} e.
Arguments UserNotOk {User} status.
Arguments UserOk {User} user.

(** [detail || fallback]. *)
Definition detail_or (detail : option string) (fallback : string) : string :=
  match detail with
  | Some d => if decide (d = empty_string) then fallback else d
  | None => fallback
  end.

Section WithPlatform.

Variable P : Platform.

(** [setupTokenExpiryHandling]: register the two callbacks (the refresh
    callback resolves to false) and start monitoring a token that is
    there. *)
Definition setupTokenExpiryHandling : M World unit :=
  on_tokenManager (modify TokenMonitor.setOnTokenExpiry) ;;
  on_tokenManager
    (modify (TokenMonitor.setOnTokenRefresh
               (TokenMonitor.RefreshResolves false))) ;;
  let* t := gets token in
  match t with
  | Some tok =>
      if decide (tok = empty_string) then ret tt
      else on_tokenManager (TokenMonitor.startMonitoring P tok)
  | None => ret tt
  end.

(** [constructor]. *)
Definition constructor : M World unit :=
  let* stored := on_storage (Storage.getItem "auth_token") in
  set_token stored ;;
  setupTokenExpiryHandling.

(** [logout]. *)
Definition logout : M World unit :=
  set_token None ;;
  on_storage (Storage.removeItem "auth_token") ;;
  on_tokenManager (modify TokenMonitor.stopMonitoring).

(** [setToken]. *)
Definition setToken (t : string) : M World unit :=
  set_token (Some t) ;;
  on_storage (Storage.setItem "auth_token" t) ;;
  on_tokenManager (TokenMonitor.startMonitoring P t).

Definition getToken : M World (option string) := gets token.

(** [isAuthenticated]: this.token !== null &&
    !tokenManager.isTokenExpired(this.token). *)
Definition isAuthenticated : M World bool :=
  let* t := gets token in
  match t with
  | None => ret false
  | Some tok =>
      let* expired := on_tokenManager (TokenMonitor.isTokenExpired P tok) in
      ret (negb expired)
  end.

(** [isTokenExpired]: this.token ? tokenManager.isTokenExpired(this.token)
    : true. *)
Definition isTokenExpired : M World bool :=
  let* t := gets token in
  match t with
  | None => ret true
  | Some tok =>
      if decide (tok = empty_string) then ret true
      else on_tokenManager (TokenMonitor.isTokenExpired P tok)
  end.

(** [login], given the server's answer. *)
Definition login (reply : LoginReply) : M World (string * string) :=
  match reply with
  | LoginFetchFails e => throw e
  | LoginNotOk detail => throw (detail_or detail "Login failed")
  | LoginOk access_token token_type =>
      setToken access_token ;;
      ret (access_token, token_type)
  end.

(** [getCurrentUser], given the server's answer; the request is made
    only when a token is there. *)
Definition getCurrentUser {User : Type} (reply : UserReply User)
  : M World User :=
  let* t := gets token in
  if match t with
     | None => true
     | Some tok => bool_decide (tok = empty_string)
     end
  then throw "No authentication token"
  else
    match reply with
    | UserFetchFails e => throw e
    | UserNotOk status =>
        (if status =? 401 then logout else ret tt) ;;
        throw "Failed to get current user"
    | UserOk user => ret user
    end.

End WithPlatform.

(** A page load: [storage] and [tokenManager] are created, then the
    service.  The browser store [ls] is what survives from the page
    before. *)
Definition page_load (P : Platform) (ls : Storage.LocalStorage) (now : Z)
  : Exc unit * World :=
  constructor P
    {| token := None;
       storage := Storage.StorageService_new ls;
       tokenManager :=
         TokenMonitor.initial_world
           (TokenMonitor.TokenManager_new None None None) now |}.

End Auth.

(** ** Request interceptor of services/api.ts *)

Module ApiRequest.

(** The part of an axios request configuration the interceptor writes:
    its headers. *)
Record RequestConfig := {
  url : string;
  headers : gmap string string
}.

(** The function given to [api.interceptors.request.use]: read the
    credential from storage and, when it is truthy, set the
    Authorization header. *)
Definition onRequest (config : RequestConfig)
  : M Storage.World RequestConfig :=
  let* token := Storage.getItem "auth_token" in
  match token with
  | Some t =>
      if decide (t = empty_string) then ret config
      else ret {| url := url config;
                  headers := <["Authorization" := "Bearer " +:+ t]>
                               (headers config) |}
  | None => ret config
  end.

End ApiRequest.

(** ** The other handlers of App.tsx *)

Module AppHandlers.
Import App.

(** [handleDeleteFeedback]: what it has done to the state once the user
    has answered the confirmation ([confirmed]) and, if they confirmed,
    the request has settled with [result].  Without the confirmation no
    request is made and [result] is not looked at. *)
Definition handleDeleteFeedback (i : Z) (confirmed : bool)
  (result : Exc unit) (st : AppState) : AppState :=
  if negb confirmed then st
  else
    match result with
    | Ok _ =>
        {| feedbacks := filter (fun feedback => id feedback ≠ i) (feedbacks st);
           error := empty_string; console := console st |}
    | Throw err =>
        {| feedbacks := feedbacks st;
           error := "Failed to delete feedback. Please try again.";
           console := console st ++ ["Error deleting feedback:"] |}
    end.

(** The rest of the state of AppContent that [handleSubmitFeedback]
    writes. *)
Record Submission := {
  isSubmitting : bool;
  refreshCounter : Z
}.

(** [handleSubmitFeedback], once [feedbackApi.create] has settled with
    [created]: how its promise settles and the state it leaves.  The
    catch clause logs and throws the error again; the finally clause runs
    either way. *)
Definition handleSubmitFeedback (created : Exc Feedback)
  (st : AppState * Submission) : Exc unit * (AppState * Submission) :=
  let '(app, sub) := st in
  match created with
  | Ok newFeedback =>
      (Ok tt,
       ({| feedbacks := newFeedback :: feedbacks app;
           error := empty_string; console := console app |},
        {| isSubmitting := false;
           refreshCounter := refreshCounter sub + 1 |}))
  | Throw err =>
      (Throw err,
       ({| feedbacks := feedbacks app; error := empty_string;
           console := console app ++ ["Error submitting feedback:"] |},
        {| isSubmitting := false; refreshCounter := refreshCounter sub |}))
  end.

End AppHandlers.

(** ** Feedback form (handleSubmit of components/FeedbackForm.tsx) *)

Module Form.

(** Text as JavaScript has it: a sequence of UTF-16 code units, so that
    [length] is [text.length]. *)
Definition Text := list N.

(** WhiteSpace and LineTerminator of ECMA-262, which [trim] strips. *)
Definition is_white (c : N) : bool :=
  match c with
  | 9 | 10 | 11 | 12 | 13 | 32 | 160 | 5760 | 8232 | 8233 | 8239 | 8287
  | 12288 | 65279 => true
  | _ => ((8192 <=? c) && (c <=? 8202))%N
  end%N.

Fixpoint trimStart (t : Text) : Text :=
  match t with
  | c :: rest => if is_white c then trimStart rest else t
  | [] => []
  end.

(** [t.trim()]. *)
Definition trim (t : Text) : Text :=
  reverse (trimStart (reverse (trimStart t))).

(** The state of the form that [handleSubmit] reads and writes. *)
Record FormState := {
  text : Text;
  error : string;
  charCount : nat
}.

Definition setText (t : Text) (st : FormState) : FormState :=
  {| text := t; error := error st; charCount := charCount st |}.

Definition setError (msg : string) (st : FormState) : FormState :=
  {| text := text st; error := msg; charCount := charCount st |}.

Definition setCharCount (n : nat) (st : FormState) : FormState :=
  {| text := text st; error := error st; charCount := n |}.

(** [handleSubmit], run on the rendered state [st] with a parent whose
    [onSubmit] settles as [onSubmit] says: the text handed to the parent,
    if the parent was called, and the state of the form afterwards.  An
    empty string is falsy, so [!text.trim()] asks whether the trimmed text
    is empty. *)
Definition handleSubmit (onSubmit : Text -> Exc unit) (st : FormState)
  : option Text * FormState :=
  if bool_decide (trim (text st) = []) then
    (None, setError "Please enter some feedback text" st)
  else if (1000 <? length (text st))%nat then
    (None, setError "Feedback text must be 1000 characters or less" st)
  else
    let st := setError empty_string st in
    match onSubmit (trim (text st)) with
    | Ok _ => (Some (trim (text st)), setCharCount 0 (setText [] st))
    | Throw _ =>
        (Some (trim (text st)),
         setError "Failed to submit feedback. Please try again." st)
    end.

End Form.

(** ** Feedback list (the sorting effect of components/FeedbackList.tsx) *)

Module FeedbackList.
Import App.

(** [[...feedbacks].sort((a, b) => b.upvotes - a.upvotes)].  The
    comparator asks for [a] before [b] when [a] has more votes, and
    Array.prototype.sort is stable, which fixes the result: it is what
    inserting the entries one by one, each behind every entry with at
    least as many votes, gives. *)
Fixpoint insert_sorted (a : Feedback) (sorted : list Feedback)
  : list Feedback :=
  match sorted with
  | [] => [a]
  | b :: rest =>
      if upvotes b <? upvotes a then a :: sorted
      else b :: insert_sorted a rest
  end.

Definition sortedFeedbacks (feedbacks : list Feedback) : list Feedback :=
  foldl (fun sorted a => insert_sorted a sorted) [] feedbacks.

(** In descending order of votes. *)
Fixpoint descending (l : list Feedback) : Prop :=
  match l with
  | a :: (b :: _) as rest => upvotes b <= upvotes a /\ descending rest
  | _ => True
  end.

End FeedbackList.

(** ** Authentication provider (contexts/AuthProvider.tsx) *)

Module AuthProvider.

(** The state of the provider, and what it wrote to the console. *)
Record ProviderState (User : Type) := {
  user : option User;
  token : option string;
  isLoading : bool;
  console : list string
}.
Arguments user {User} p.
Arguments token {User} p.
Arguments isLoading {User} p.
Arguments console {User} p.

(** useState(null), useState(null), useState(true). *)
Definition ProviderState_new (User : Type) : ProviderState User :=
  {| user := None; token := None; isLoading := true; console := [] |}.

(** The provider's state and the [authService] singleton it calls. *)
Definition World (User : Type) : Type := (ProviderState User * Auth.World)%type.

Definition on_service {User A} (m : M Auth.World A) : M (World User) A :=
  fun pw =>
    let '(r, w) := m (snd pw) in (r, (fst pw, w)).

Definition on_state {User} (f : ProviderState User -> ProviderState User)
  : M (World User) unit :=
  modify (fun pw => (f (fst pw), snd pw)).

Definition setUser {User} (u : option User) : M (World User) unit :=
  on_state (fun p => {| user := u; token := token p;
                        isLoading := isLoading p; console := console p |}).

Definition setToken {User} (t : option string) : M (World User) unit :=
  on_state (fun p => {| user := user p; token := t;
                        isLoading := isLoading p; console := console p |}).

Definition setIsLoading {User} (b : bool) : M (World User) unit :=
  on_state (fun p => {| user := user p; token := token p;
                        isLoading := b; console := console p |}).

Definition console_error {User} (msg : string) : M (World User) unit :=
  on_state (fun p => {| user := user p; token := token p;
                        isLoading := isLoading p;
                        console := console p ++ [msg] |}).

(** try { body } finally { finalizer }: the finalizer runs however the
    body ends, and the body's outcome stands unless the finalizer
    throws. *)
Definition try_finally {W A} (body : M W A) (finalizer : M W unit) : M W A :=
  fun w =>
    let '(r, w') := body w in
    match finalizer w' with
    | (Ok _, w'') => (r, w'')
    | (Throw e, w'') => (Throw e, w'')
    end.

Section WithPlatform.

Variable P : JS.Platform.
Context {User : Type}.

(** [initializeAuth], given the server's answer to the request for the
    current user. *)
Definition initializeAuth (reply : Auth.UserReply User)
  : M (World User) unit :=
  try_finally
    (try_catch
       (let* storedToken := on_service Auth.getToken in
        match storedToken with
        | Some t =>
            if decide (t = empty_string) then ret tt
            else
              setToken (Some t) ;;
              let* currentUser := on_service (Auth.getCurrentUser reply) in
              setUser (Some currentUser)
        | None => ret tt
        end)
       (fun error =>
          console_error "Failed to initialize auth:" ;;
          on_service Auth.logout))
    (setIsLoading false).

(** [login], given the server's answers to the two requests. *)
Definition login (loginReply : Auth.LoginReply)
  (userReply : Auth.UserReply User) : M (World User) unit :=
  let* tokenData := on_service (Auth.login P loginReply) in
  setToken (Some (fst tokenData)) ;;
  let* currentUser := on_service (Auth.getCurrentUser userReply) in
  setUser (Some currentUser).

(** [logout]. *)
Definition logout : M (World User) unit :=
  on_service Auth.logout ;;
  setUser None ;;
  setToken None.

End WithPlatform.

End AuthProvider.

(** ** Concrete inputs for the authentication service *)

Module AuthExamples.

(** The page after a load that found a credential in a working browser
    store. *)
Definition fresh_page : Auth.World :=
  snd (Auth.page_load Examples.example_platform Examples.store_with_token
         1700000000000).

End AuthExamples.

(** * Properties *)

(** ** Storage Adapter *)

Section StorageFacts.
Import Storage.

Lemma ls_call_frame {A} (f : gmap string string -> A * gmap string string) w :
  this (snd (ls_call f w)) = this w /\ console (snd (ls_call f w)) = console w.
Proof.
  unfold ls_call.
  destruct (ls_faults (localStorage w)) as [|[] rest]; simpl;
    try destruct (f _); simpl; auto.
Qed.

Ltac storage_unfold :=
  unfold run_op, getItem, setItem, removeItem, clear, try_local_else_memory,
    update_memory, localStorage_getItem, localStorage_setItem,
    localStorage_removeItem, localStorage_clear, try_catch, bind, ret, gets,
    modify, console_log, ls_call, set_this, set_localStorage, with_memory in *.

(** Every call of the interface returns normally. *)
Lemma run_op_total op w : exists r, fst (run_op op w) = Ok r.
Proof.
  destruct op; storage_unfold; simpl;
    destruct (isAvailable (this w)); simpl;
    try (destruct (ls_faults (localStorage w)) as [|[] rest]; simpl);
    eauto.
Qed.

(** No call writes [isAvailable]. *)
Lemma run_op_isAvailable op w :
  isAvailable (this (snd (run_op op w))) = isAvailable (this w).
Proof.
  destruct op; storage_unfold; simpl;
    destruct (isAvailable (this w)) eqn:E; simpl;
    try (destruct (ls_faults (localStorage w)) as [|[] rest]; simpl);
    auto.
Qed.

(** On the fallback a call is the map operation and nothing else. *)
Lemma run_op_fallback op w :
  isAvailable (this w) = false ->
  run_op op w =
    (Ok (fst (mem_op op (memoryStorage (this w)))),
     with_memory (snd (mem_op op (memoryStorage (this w)))) w).
Proof.
  intros E. destruct w as [[av mem] ls con]. simpl in E. subst av.
  destruct op; reflexivity.
Qed.

(** A call that meets a throwing browser store answers from the map,
    and the adapter stays on the browser store. *)
Lemma run_op_on_fault op w rest :
  isAvailable (this w) = true ->
  ls_faults (localStorage w) = true :: rest ->
  fst (run_op op w) = Ok (fst (mem_op op (memoryStorage (this w))))
  /\ memoryStorage (this (snd (run_op op w)))
     = snd (mem_op op (memoryStorage (this w)))
  /\ ls_items (localStorage (snd (run_op op w))) = ls_items (localStorage w)
  /\ isAvailable (this (snd (run_op op w))) = true.
Proof.
  intros E F. destruct w as [[av mem] [items faults] con].
  simpl in E, F. subst av faults.
  destruct op; repeat split; reflexivity.
Qed.

Lemma removeItem_returns key w : fst (removeItem key w) = Ok tt.
Proof.
  storage_unfold; simpl. destruct (isAvailable (this w)); simpl;
    try (destruct (ls_faults (localStorage w)) as [|[] rest]; simpl);
    reflexivity.
Qed.

(** Unless the browser store throws, a removed key reads back as null. *)
Lemma removeItem_then_getItem key w :
  isAvailable (this w) = false \/ ls_faults (localStorage w) = [] ->
  fst (getItem key (snd (removeItem key w))) = Ok None.
Proof.
  destruct w as [[av mem] [items faults] con]. simpl.
  intros [E|E]; subst.
  - storage_unfold; simpl. rewrite lookup_delete_eq. reflexivity.
  - destruct av; storage_unfold; simpl; rewrite lookup_delete_eq; reflexivity.
Qed.

Lemma run_ops_total ops : forall w,
  Forall (fun r => is_ok r = true) (fst (run_ops ops w)).
Proof.
  induction ops as [|op ops IH]; intros w; simpl.
  - constructor.
  - destruct (run_op_total op w) as [r Hr].
    destruct (run_op op w) as [r0 w'] eqn:E. simpl in Hr. subst r0.
    specialize (IH w'). destruct (run_ops ops w') as [rs w''].
    simpl in *. constructor; auto.
Qed.

Lemma run_ops_isAvailable ops : forall w,
  isAvailable (this (snd (run_ops ops w))) = isAvailable (this w).
Proof.
  induction ops as [|op ops IH]; intros w; simpl; [reflexivity|].
  pose proof (run_op_isAvailable op w) as H.
  destruct (run_op op w) as [r w'] eqn:E.
  specialize (IH w'). destruct (run_ops ops w') as [rs w''].
  simpl in *. congruence.
Qed.

Lemma run_ops_fallback ops : forall w,
  isAvailable (this w) = false ->
  localStorage (snd (run_ops ops w)) = localStorage w
  /\ console (snd (run_ops ops w)) = console w
  /\ (fst (run_ops ops w), memoryStorage (this (snd (run_ops ops w))))
     = mem_ops ops (memoryStorage (this w)).
Proof.
  induction ops as [|op ops IH]; intros w E; simpl; [auto|].
  rewrite (run_op_fallback op w E).
  destruct (mem_op op (memoryStorage (this w))) as [r mem'] eqn:Eop. simpl.
  assert (E' : isAvailable (this (with_memory mem' w)) = false) by exact E.
  destruct (IH _ E') as (H1 & H2 & H3).
  destruct (run_ops ops (with_memory mem' w)) as [rs w''].
  simpl in *. destruct (mem_ops ops mem') as [rs' mem''].
  inversion H3; subst. auto.
Qed.

Lemma constructor_isAvailable ls :
  isAvailable (this (StorageService_new ls)) = negb (probe_fails ls).
Proof.
  destruct ls as [items faults].
  destruct faults as [|[] [|[] faults]]; reflexivity.
Qed.

Lemma constructor_memory ls :
  memoryStorage (this (StorageService_new ls)) = ∅.
Proof.
  destruct ls as [items faults].
  destruct faults as [|[] [|[] faults]]; reflexivity.
Qed.




(** C10.  On the in-memory fallback, storing the empty string under a
    key and reading the key back gives null, although the map holds the
    empty string. *)
Theorem fallback_empty_string_reads_as_absent :
  forall (w : World) (key : string),
    isAvailable (this w) = false ->
    let w' := snd (setItem key empty_string w) in
    memoryStorage (this w') !! key = Some empty_string
    /\ fst (getItem key w') = Ok None.
Proof.
  intros w key E w'. subst w'.
  destruct w as [[av mem] ls con]. simpl in E. subst av.
  storage_unfold. simpl. rewrite lookup_insert_eq. split; reflexivity.
Qed.

Lemma fallback_empty_string_reads_as_absent_witness :
  isAvailable (this (StorageService_new Examples.store_unavailable)) = false
  /\ fst (getItem "k"
            (snd (setItem "k" empty_string
                    (StorageService_new Examples.store_unavailable))))
     = Ok None.
Proof.
  split; [reflexivity|].
  apply (fallback_empty_string_reads_as_absent
           (StorageService_new Examples.store_unavailable) "k").
  reflexivity.
Defined.

(** A removal on which the browser store throws leaves the store's
    entries as they were. *)
Lemma removeItem_fault_keeps_items key w rest :
  isAvailable (this w) = true ->
  ls_faults (localStorage w) = true :: rest ->
  ls_items (localStorage (snd (removeItem key w))) = ls_items (localStorage w).
Proof.
  destruct w as [[av mem] [items faults] con]. simpl.
  intros -> ->. storage_unfold. reflexivity.
Qed.

End StorageFacts.

(** ** Event Bus *)

Section BusFacts.
Import Bus.

Lemma Set_values_delete h d :
  Set_values (Set_delete h d) = filter (fun x => x ≠ h) (Set_values d).
Proof.
  unfold Set_values, Set_delete.
  induction d as [|[x|] d IH]; simpl; auto.
  destruct (decide (Some x = Some h)) as [E|E]; simpl.
  - inversion E; subst.
    rewrite filter_cons_False by (intros H; apply H; reflexivity). exact IH.
  - rewrite filter_cons_True by congruence. f_equal. exact IH.
Qed.

Lemma Set_values_add h d :
  Set_values (Set_add h d)
  = if bool_decide (h ∈ Set_values d) then Set_values d else Set_values d ++ [h].
Proof.
  unfold Set_add, Set_values.
  assert (Hiff : Some h ∈ d <-> h ∈ omap id d).
  { rewrite list_elem_of_omap. split.
    - intros H. exists (Some h). auto.
    - intros (x & Hx & Hid). simpl in Hid. subst. exact Hx. }
  destruct (bool_decide (Some h ∈ d)) eqn:E1, (bool_decide (h ∈ omap id d)) eqn:E2;
    try reflexivity.
  - apply bool_decide_eq_true in E1. apply bool_decide_eq_false in E2. tauto.
  - apply bool_decide_eq_false in E1. apply bool_decide_eq_true in E2. tauto.
  - rewrite omap_app. reflexivity.
Qed.

Lemma Set_delete_length h d : length (Set_delete h d) = length d.
Proof. unfold Set_delete. apply length_fmap. Qed.

Lemma Set_add_NoDup h d : NoDup (Set_values d) -> NoDup (Set_values (Set_add h d)).
Proof.
  intros H. rewrite Set_values_add.
  destruct (bool_decide (h ∈ Set_values d)) eqn:E; [exact H|].
  apply bool_decide_eq_false in E.
  apply NoDup_app. split; [exact H|]. split.
  - intros x Hx Hx'. apply list_elem_of_singleton in Hx'. subst. auto.
  - apply NoDup_singleton.
Qed.

Lemma Set_delete_NoDup h d : NoDup (Set_values d) -> NoDup (Set_values (Set_delete h d)).
Proof. intros H. rewrite Set_values_delete. apply NoDup_filter. exact H. Qed.

Definition sets_ok (em : AuthEventEmitter) : Prop :=
  Forall (fun d => NoDup (Set_values d)) (heap em).

Lemma Forall_alter_preserved {A} (Q : A -> Prop) (f : A -> A) i (l : list A) :
  (forall x, Q x -> Q (f x)) -> Forall Q l -> Forall Q (alter f i l).
Proof. intros Hf Hl. apply Forall_alter; auto. Qed.

Lemma apply_op_sets_ok op em : sets_ok em -> sets_ok (apply_op op em).
Proof.
  unfold sets_ok. intros H. destruct op as [ev h|ev h|ev|]; simpl.
  - unfold on. destruct (handlers em ev) as [r|] eqn:E; simpl.
    + rewrite E. simpl. apply Forall_alter_preserved; auto using Set_add_NoDup.
    + unfold Map_set. destruct (decide (ev = ev)); [|congruence]. simpl.
      apply Forall_alter_preserved; auto using Set_add_NoDup.
      apply Forall_app. split; [exact H|]. repeat constructor.
  - unfold unsubscribe. destruct (handlers em ev); simpl; auto.
    apply Forall_alter_preserved; auto using Set_delete_NoDup.
  - exact H.
  - exact H.
Qed.

Lemma build_sets_ok ops : sets_ok (build ops).
Proof.
  unfold build.
  assert (G : forall em, sets_ok em -> sets_ok (foldl (fun em op => apply_op op em) em ops)).
  { induction ops as [|op ops IH]; simpl; auto using apply_op_sets_ok. }
  apply G. constructor.
Qed.

Lemma registered_NoDup event em : sets_ok em -> NoDup (registered event em).
Proof.
  unfold sets_ok, registered. intros H.
  destruct (handlers em event) as [r|]; [|constructor].
  destruct (heap em !! r) as [d|] eqn:E; simpl; [|constructor].
  rewrite Forall_forall in H. apply H. eapply list_elem_of_lookup_2; eauto.
Qed.


Lemma live_pass_ext kills l : forall d1 d2,
  (forall x, x ∈ d1 <-> x ∈ d2) ->
  live_pass kills d1 l = live_pass kills d2 l.
Proof.
  induction l as [|h l IH]; intros d1 d2 Hd; simpl; [reflexivity|].
  rewrite (bool_decide_ext (h ∈ d1) (h ∈ d2)) by apply Hd.
  destruct (bool_decide (h ∈ d2)); [apply IH; exact Hd|].
  f_equal. apply IH. intros x. rewrite !elem_of_app, Hd. reflexivity.
Qed.

Lemma live_pass_filter kills ks l : forall dead,
  live_pass kills dead (filter (fun x => x ∉ ks) l)
  = live_pass kills (ks ++ dead) l.
Proof.
  induction l as [|h l IH]; intros dead; simpl; [reflexivity|].
  destruct (decide (h ∈ ks)) as [Hin|Hout].
  - rewrite filter_cons_False by tauto.
    rewrite bool_decide_eq_true_2 by (apply elem_of_app; auto).
    apply IH.
  - rewrite filter_cons_True by exact Hout. simpl.
    rewrite (bool_decide_ext (h ∈ ks ++ dead) (h ∈ dead))
      by (rewrite elem_of_app; tauto).
    destruct (bool_decide (h ∈ dead)); [apply IH|].
    f_equal. rewrite IH. apply live_pass_ext.
    intros x. rewrite !elem_of_app. tauto.
Qed.

Lemma live_pass_no_kills kills l :
  (forall h, kills h = []) -> live_pass kills [] l = l.
Proof.
  intros Hk. induction l as [|h l IH]; cbn [live_pass]; [reflexivity|].
  rewrite bool_decide_eq_false_2 by apply not_elem_of_nil.
  rewrite Hk. simpl. f_equal. exact IH.
Qed.

Lemma filter_not_in_nil (l : list Handler) : filter (fun x => x ∉ []) l = l.
Proof.
  induction l as [|x l IH]; [reflexivity|].
  rewrite filter_cons_True by apply not_elem_of_nil. f_equal. exact IH.
Qed.

Lemma Set_values_deletes ks d :
  Set_values (foldr Set_delete d ks) = filter (fun x => x ∉ ks) (Set_values d).
Proof.
  induction ks as [|k ks IH]; simpl.
  - symmetry. apply filter_not_in_nil.
  - rewrite Set_values_delete, IH, list_filter_filter.
    apply list_filter_iff. intros x. rewrite not_elem_of_cons. tauto.
Qed.

Lemma deletes_drop ks n d :
  drop n (foldr Set_delete d ks) = foldr Set_delete (drop n d) ks.
Proof.
  induction ks as [|k ks IH]; simpl; [reflexivity|].
  unfold Set_delete at 1 3. rewrite <- fmap_drop, IH. reflexivity.
Qed.

Lemma deletes_length ks d : length (foldr Set_delete d ks) = length d.
Proof.
  induction ks as [|k ks IH]; simpl; [reflexivity|].
  rewrite Set_delete_length. exact IH.
Qed.

Lemma unsubscribes_emitter event ks em r :
  handlers em event = Some r ->
  foldr (unsubscribe event) em ks
  = {| handlers := handlers em;
       heap := alter (fun d => foldr Set_delete d ks) r (heap em) |}.
Proof.
  intros Hr. induction ks as [|k ks IH]; simpl.
  - rewrite list_alter_id by reflexivity. destruct em; reflexivity.
  - rewrite IH. unfold unsubscribe. simpl. rewrite Hr.
    f_equal. rewrite list_alter_alter_eq. reflexivity.
Qed.

Lemma unsubscribes_emitter_none event ks em :
  handlers em event = None -> foldr (unsubscribe event) em ks = em.
Proof.
  intros Hr. induction ks as [|k ks IH]; simpl; [reflexivity|].
  rewrite IH. unfold unsubscribe. rewrite Hr. reflexivity.
Qed.


Section Delivery.
Context {S : Type}.
Variable body : Handler -> M (AuthEventEmitter * S) unit.

Lemma forEach_no_call fuel : forall r i st outcome st',
  forEach body fuel r i st = Some (outcome, [], st') -> st' = st.
Proof.
  induction fuel as [|fuel IH]; intros r i st outcome st' H; simpl in H;
    [discriminate|].
  destruct (default [] (heap (fst st) !! r) !! i) as [[h|]|].
  - destruct (body h st) as [[[]|e] st1]; [|discriminate].
    destruct (forEach body fuel r (Datatypes.S i) st1) as [[[? ?] ?]|];
      discriminate.
  - eapply IH; eauto.
  - inversion H; reflexivity.
Qed.

(** What every handler establishes holds after a delivery that called a
    handler. *)
Lemma forEach_invariant (Q : AuthEventEmitter * S -> Prop) fuel :
  (forall h st, Q (snd (body h st))) ->
  forall r i st outcome called st',
    forEach body fuel r i st = Some (outcome, called, st') ->
    called <> [] -> Q st'.
Proof.
  intros HQ. induction fuel as [|fuel IH];
    intros r i st outcome called st' H Hne; simpl in H; [discriminate|].
  destruct (default [] (heap (fst st) !! r) !! i) as [[h|]|] eqn:E.
  - pose proof (HQ h st) as Hh.
    destruct (body h st) as [[[]|e] st1]; simpl in Hh.
    + destruct (forEach body fuel r (Datatypes.S i) st1)
        as [[[outcome0 called0] st0]|] eqn:E0; [|discriminate].
      inversion H; subst.
      destruct called0 as [|h0 called0].
      * apply forEach_no_call in E0. subst. exact Hh.
      * eapply IH; [exact E0|discriminate].
    + inversion H; subst. exact Hh.
  - eapply IH; eauto.
  - inversion H; subst. congruence.
Qed.

Lemma delivered_returns outcome called pass st' :
  (forall h st, fst (body h st) = Ok tt) ->
  delivered body outcome called pass st' ->
  outcome = Ok tt /\ called = pass.
Proof.
  intros Hok. destruct outcome as [[]|e]; simpl; [auto|].
  intros (before & h & rest & st_h & _ & _ & Hthrow).
  pose proof (Hok h st_h) as H. rewrite Hthrow in H. discriminate.
Qed.

Variable event : AuthEventType.
Variable kills : Handler -> list Handler.
Hypothesis body_unsubscribes : forall h st,
  fst (snd (body h st)) = foldr (unsubscribe event) (fst st) (kills h).

Lemma forEach_live fuel : forall r i st,
  handlers (fst st) event = Some r ->
  (length (default [] (heap (fst st) !! r)) - i < fuel)%nat ->
  exists outcome called st',
    forEach body fuel r i st = Some (outcome, called, st')
    /\ delivered body outcome called
         (live_pass kills []
            (Set_values (drop i (default [] (heap (fst st) !! r))))) st'.
Proof.
  induction fuel as [|fuel IH]; intros r i st Hr Hfuel; [lia|].
  simpl. set (d := default [] (heap (fst st) !! r)) in *.
  destruct (d !! i) as [[h|]|] eqn:E.
  - rewrite (drop_S _ _ _ E).
    change (Set_values (Some h :: drop (Datatypes.S i) d))
      with (h :: Set_values (drop (Datatypes.S i) d)).
    cbn [live_pass]. rewrite bool_decide_eq_false_2 by apply not_elem_of_nil.
    assert (Hlt : (i < length d)%nat) by (eapply lookup_lt_Some; eauto).
    assert (Hem : fst (snd (body h st))
                  = {| handlers := handlers (fst st);
                       heap := alter (fun d => foldr Set_delete d (kills h)) r
                                 (heap (fst st)) |}).
    { rewrite body_unsubscribes. apply unsubscribes_emitter. exact Hr. }
    assert (Hd : default [] (heap (fst (snd (body h st))) !! r)
                 = foldr Set_delete d (kills h)).
    { rewrite Hem. simpl. rewrite list_lookup_alter_eq. subst d.
      destruct (heap (fst st) !! r) as [d0|] eqn:E0.
      - reflexivity.
      - simpl in E. rewrite lookup_nil in E. discriminate. }
    assert (Hpass : live_pass kills (kills h ++ [])
                      (Set_values (drop (Datatypes.S i) d))
                    = live_pass kills []
                        (Set_values
                           (drop (Datatypes.S i)
                              (default [] (heap (fst (snd (body h st))) !! r))))).
    { rewrite Hd, deletes_drop, Set_values_deletes, live_pass_filter.
      reflexivity. }
    destruct (body h st) as [[[]|e] st1] eqn:Eb; cbn [fst snd] in *.
    + destruct (IH r (Datatypes.S i) st1) as (outcome & called & st' & Hrun & Hdel).
      * rewrite Hem. exact Hr.
      * rewrite Hd, deletes_length. lia.
      * rewrite Hrun. exists outcome, (h :: called), st'.
        split; [reflexivity|]. rewrite Hpass.
        destruct outcome as [[]|e]; simpl in *.
        -- f_equal. exact Hdel.
        -- destruct Hdel as (before & h' & rest & st_h & Hc & Hp & Hthrow).
           exists (h :: before), h', rest, st_h. rewrite Hc, Hp.
           repeat split; auto. rewrite Hc. reflexivity.
    + exists (Throw e), [h], st1. split; [reflexivity|]. simpl.
      exists [], h, (live_pass kills (kills h ++ [])
                       (Set_values (drop (Datatypes.S i) d))), st.
      repeat split; auto.
  - rewrite (drop_S _ _ _ E).
    change (Set_values (None :: drop (Datatypes.S i) d))
      with (Set_values (drop (Datatypes.S i) d)).
    assert (Hlt : (i < length d)%nat) by (eapply lookup_lt_Some; eauto).
    apply IH; [exact Hr|]. fold d. lia.
  - exists (Ok tt), [], st. rewrite drop_ge by (apply lookup_ge_None; exact E).
    split; reflexivity.
Qed.

Lemma emit_live fuel st :
  (pass_length event (fst st) < fuel)%nat ->
  exists outcome called st',
    emit body fuel event st = Some (outcome, called, st')
    /\ delivered body outcome called
         (live_pass kills [] (registered event (fst st))) st'.
Proof.
  unfold pass_length, emit, registered. intros Hfuel.
  destruct (handlers (fst st) event) as [r|] eqn:Hr.
  - destruct (forEach_live fuel r 0 st Hr) as (outcome & called & st' & H & Hd);
      [lia|].
    exists outcome, called, st'. split; [exact H|exact Hd].
  - exists (Ok tt), [], st. split; reflexivity.
Qed.

End Delivery.

Lemma live_pass_sublist kills l : forall dead,
  live_pass kills dead l `sublist_of` l.
Proof.
  induction l as [|h l IH]; intros dead; cbn [live_pass]; [constructor|].
  destruct (bool_decide (h ∈ dead)).
  - apply sublist_cons, IH.
  - apply sublist_skip, IH.
Qed.

Lemma unsubscribe_not_registered event h em :
  h ∉ registered event (unsubscribe event h em).
Proof.
  unfold registered, unsubscribe.
  destruct (handlers em event) as [r|] eqn:Hr; simpl; rewrite Hr;
    [|apply not_elem_of_nil].
  rewrite list_lookup_alter_eq.
  destruct (heap em !! r) as [d|]; simpl; [|apply not_elem_of_nil].
  rewrite Set_values_delete. intros Hin.
  apply list_elem_of_filter in Hin. tauto.
Qed.

(** C4, as the code has it.  [emit] iterates the live Set; no snapshot
    is taken.  For an emitter built by any sequence of calls the
    registered handlers are distinct and a handler unsubscribed before
    the publish is not among them.  When the handlers do no more to the
    emitter than unsubscribe handlers of the event being delivered
    ([kills h] for handler [h], possibly none, possibly [h] itself), the
    delivery ends, and the pass it makes is, in registration order, every
    registered handler that no handler called earlier in the same pass
    has unsubscribed, each once: [emit] returns having called all of
    them, or a handler throws, the handlers called are those of the pass
    up to and including it, and its exception leaves [emit].  When no
    handler throws it is the former; when no handler unsubscribes
    anything the pass is all registered handlers. *)
Theorem emit_delivers_live_registered_handlers :
  forall (S : Type) (body : Handler -> M (AuthEventEmitter * S) unit)
         (kills : Handler -> list Handler) (event : AuthEventType)
         (ops : list BusOp) (s : S),
    (forall h st,
        fst (snd (body h st))
        = foldr (unsubscribe event) (fst st) (kills h)) ->
    let em := build ops in
    let pass := live_pass kills [] (registered event em) in
    NoDup (registered event em)
    /\ (forall h, h ∉ registered event (unsubscribe event h em))
    /\ pass `sublist_of` registered event em
    /\ (forall fuel, (pass_length event em < fuel)%nat ->
        exists outcome called st',
          emit body fuel event (em, s) = Some (outcome, called, st')
          /\ delivered body outcome called pass st')
    /\ ((forall h st, fst (body h st) = Ok tt) ->
        forall fuel, (pass_length event em < fuel)%nat ->
        exists st', emit body fuel event (em, s) = Some (Ok tt, pass, st'))
    /\ ((forall h, kills h = []) -> pass = registered event em).
Proof.
  intros S body kills event ops s Hbody em pass.
  split; [apply registered_NoDup, build_sets_ok|].
  split; [intros h; apply unsubscribe_not_registered|].
  split; [apply live_pass_sublist|].
  split; [|split].
  - intros fuel Hfuel.
    apply (emit_live body event kills Hbody fuel (em, s)). exact Hfuel.
  - intros Hok fuel Hfuel.
    destruct (emit_live body event kills Hbody fuel (em, s) Hfuel)
      as (outcome & called & st' & Hrun & Hdel).
    destruct (delivered_returns body _ _ _ _ Hok Hdel) as [-> ->].
    exists st'. exact Hrun.
  - intros Hk. apply live_pass_no_kills. exact Hk.
Qed.

Lemma emit_delivers_live_registered_handlers_witness :
  (forall h (st : AuthEventEmitter * unit),
      fst (snd (unsubscribing_body unauthorized Examples.first_kills_second
                  h st))
      = foldr (unsubscribe unauthorized) (fst st)
          (Examples.first_kills_second h))
  /\ exists st',
      emit (unsubscribing_body unauthorized Examples.first_kills_second)
        3 unauthorized (Examples.two_handlers, tt)
      = Some (Ok tt, [0%nat], st').
Proof.
  split; [intros h st; reflexivity|].
  destruct (emit_delivers_live_registered_handlers unit
              (unsubscribing_body unauthorized Examples.first_kills_second)
              Examples.first_kills_second unauthorized
              [CallOn unauthorized 0%nat; CallOn unauthorized 1%nat] tt
              (fun h st => eq_refl)) as (_ & _ & _ & _ & H & _).
  apply (H (fun h st => eq_refl) 3%nat). vm_compute. lia.
Defined.

(** C4 as stated fails: two handlers are registered for [unauthorized]
    when it is published, and the first unsubscribes the second during
    the delivery.  The second is not called: the delivery reads the live
    set. *)
Lemma emit_takes_no_snapshot :
  registered unauthorized Examples.two_handlers = [0%nat; 1%nat]
  /\ fst <$> emit (unsubscribing_body unauthorized Examples.first_kills_second)
               3 unauthorized (Examples.two_handlers, tt)
     = Some (Ok tt, [0%nat]).
Proof. split; reflexivity. Qed.

End BusFacts.

(** ** Transport Guard *)

Section ApiFacts.
Import Api.

Variable body : Bus.Handler -> M World unit.


End ApiFacts.



(** ** Session Monitor *)

Section TokenFacts.
Import JS TokenMonitor.
Variable P : Platform.

Lemma decodeToken_eq token w :
  decodeToken P token w
  = (Ok (match decode_payload P token with Ok v => v | Throw _ => JNull end),
     after_decode P token w).
Proof.
  unfold decodeToken, after_decode, try_catch, lift, bind, modify, ret.
  destruct (decode_payload P token); reflexivity.
Qed.

Lemma getTokenExpiry_eq token w :
  getTokenExpiry P token w = (token_expiry P token, after_decode P token w).
Proof.
  unfold getTokenExpiry, bind. rewrite decodeToken_eq. reflexivity.
Qed.

Lemma Date_now_after_decode token w :
  Date_now (after_decode P token w) = Date_now w.
Proof. unfold after_decode. destruct (decode_payload P token); reflexivity. Qed.

Lemma getTimeUntilExpiry_eq token w :
  getTimeUntilExpiry P token w
  = (exc_bind (token_expiry P token) (fun expiry =>
       Ok (if number_falsy expiry then None
           else Some (sub (default NaN expiry) (Num (Date_now w))))),
     after_decode P token w).
Proof.
  unfold getTimeUntilExpiry, bind. rewrite getTokenExpiry_eq.
  destruct (token_expiry P token) as [expiry|e]; simpl; [|reflexivity].
  destruct (number_falsy expiry); unfold ret, gets; simpl;
    rewrite ?Date_now_after_decode; reflexivity.
Qed.

Lemma isTokenExpired_eq token w :
  isTokenExpired P token w
  = (exc_bind (token_expiry P token) (fun expiry =>
       Ok (if number_falsy expiry then true
           else le (sub (default NaN expiry) (Num (Date_now w))) (Num 0))),
     after_decode P token w).
Proof.
  unfold isTokenExpired, bind. rewrite getTimeUntilExpiry_eq.
  destruct (token_expiry P token) as [expiry|e]; simpl; [|reflexivity].
  destruct (number_falsy expiry); reflexivity.
Qed.

Lemma token_expiry_some_decodes token n :
  token_expiry P token = Ok (Some n) ->
  forall w, after_decode P token w = w.
Proof.
  unfold token_expiry, after_decode. intros H w.
  destruct (decode_payload P token); [reflexivity|]. discriminate.
Qed.

Lemma malformed_no_expiry token :
  malformed P token = true -> token_expiry P token = Ok None.
Proof.
  unfold malformed, token_expiry, decode_payload.
  destruct (negb (length (split "." token) =? 3)%nat); [reflexivity|].
  destruct (atob P _) as [decoded|e]; simpl; [|reflexivity].
  destruct (JSON_parse P decoded) as [v|e]; simpl; [|reflexivity].
  destruct v as [| |[]|[|z]|s|elems|fields]; try reflexivity; try discriminate.
  - unfold payload_expiry. simpl. destruct (z =? 0); reflexivity.
  - unfold payload_expiry. simpl.
    destruct (bool_decide (s = empty_string)); reflexivity.
  - unfold payload_expiry. simpl.
    destruct (lookup_field "exp" fields); try discriminate. reflexivity.
Qed.

(** [stopMonitoring] clears the three fields, removes timers and sets
    none. *)
Lemma stopMonitoring_fields w :
  warningTimer (this (stopMonitoring w)) = None
  /\ refreshTimer (this (stopMonitoring w)) = None
  /\ logoutTimer (this (stopMonitoring w)) = None
  /\ next_timer (stopMonitoring w) = next_timer w
  /\ effects (stopMonitoring w) = effects w
  /\ Date_now (stopMonitoring w) = Date_now w
  /\ timers (stopMonitoring w) ⊆ timers w.
Proof.
  destruct w as [[wt rt lt cfg cb1 cb2] ts nt org clk eff].
  unfold stopMonitoring; simpl.
  destruct wt, rt, lt; simpl; repeat split; try reflexivity;
    unfold clearTimeout; simpl; intros x Hx;
    repeat (apply list_elem_of_filter in Hx; destruct Hx as [_ Hx]);
    exact Hx.
Qed.

Lemma after_decode_frame token w :
  this (after_decode P token w) = this w
  /\ timers (after_decode P token w) = timers w
  /\ next_timer (after_decode P token w) = next_timer w.
Proof.
  unfold after_decode. destruct (decode_payload P token); simpl; auto.
Qed.

Lemma token_expiry_empty : token_expiry P empty_string = Ok None.
Proof. reflexivity. Qed.


(** C9.  [decodeToken] never throws.  For a malformed credential (not
    three dot-separated segments, a payload that is not base64 or not
    JSON, claims without [exp]) [isTokenExpired] returns true, and
    [startMonitoring] returns normally without setting a timer. *)
Theorem malformed_credential_is_expired :
  forall (token : string) (w : World),
    (exists v, fst (decodeToken P token w) = Ok v)
    /\ (malformed P token = true ->
        fst (isTokenExpired P token w) = Ok true
        /\ fst (startMonitoring P token w) = Ok tt
        /\ next_timer (snd (startMonitoring P token w)) = next_timer w).
Proof.
  intros token w. split.
  - rewrite decodeToken_eq. simpl. eauto.
  - intros Hm. apply malformed_no_expiry in Hm.
    split; [rewrite isTokenExpired_eq, Hm; reflexivity|].
    destruct (stopMonitoring_fields w) as (_ & _ & _ & H4 & _).
    unfold startMonitoring, bind, modify. simpl.
    destruct (bool_decide (token = empty_string)); [simpl; auto|].
    rewrite isTokenExpired_eq, Hm. simpl.
    destruct (after_decode_frame token (stopMonitoring w)) as (_ & _ & H).
    split; [reflexivity|]. congruence.
Qed.

(** C2, as the code has it.  A page at any [Date.now() >= 0], the
    default configuration, both callbacks registered, a credential that
    expires 10 minutes from now.  [startMonitoring] sets three timers, at
    5, 8 and 10 minutes.  Running the event loop: at 5 minutes the expiry
    warning is shown; at 8 minutes the refresh callback is called; at 10
    minutes the logout modal opens with its countdown at 30, and nothing
    else happens then; the expiry callback is called once, at 10 minutes
    and 30 seconds, when the countdown has run out. *)
Theorem ten_minute_credential_timeline :
  forall (token : string) (origin : Z) (outcome : RefreshOutcome),
    let w0 := setOnTokenRefresh outcome
                (setOnTokenExpiry
                   (initial_world (TokenManager_new None None None) origin)) in
    0 <= origin ->
    fst (getTokenExpiry P token w0) = Ok (Some (Num (origin + 600000))) ->
    exists w1,
      startMonitoring P token w0 = (Ok tt, w1)
      /\ (fun t => (timer_due t, timer_action t)) <$> timers w1
         = [(300000, DoShowExpiryWarning); (480000, DoAttemptTokenRefresh);
            (600000, DoHandleTokenExpiry)]
      /\ exists w2,
          advance 40 630000 w1 = Some w2
          /\ timers w2 = []
          /\ effects_at 300000 w2 = [Shown (ExpiryWarning 5)]
          /\ head (effects_at 480000 w2) = Some Called_onTokenRefresh
          /\ effects_at 600000 w2 = [Shown LogoutModal; CountdownText 30]
          /\ effects_at 630000 w2
             = [CountdownText 0; Called_onTokenExpiry; Removed LogoutModal]
          /\ expiry_callback_times w2 = [630000].
Proof.
  intros token origin outcome w0 Horigin He.
  rewrite getTokenExpiry_eq in He. simpl in He.
  assert (Hne : bool_decide (token = empty_string) = false).
  { apply bool_decide_eq_false. intros ->.
    rewrite token_expiry_empty in He. discriminate. }
  assert (Hleft : getTimeUntilExpiry P token w0 = (Ok (Some (Num 600000)), w0)).
  { rewrite getTimeUntilExpiry_eq, He. simpl.
    rewrite (token_expiry_some_decodes _ _ He).
    replace (origin + 600000 =? 0) with false
      by (symmetry; apply Z.eqb_neq; lia).
    unfold Date_now, w0. simpl.
    replace (origin + 600000 - (origin + 0)) with 600000 by lia.
    reflexivity. }
  assert (Hexp : isTokenExpired P token w0 = (Ok false, w0)).
  { unfold isTokenExpired, bind. rewrite Hleft. reflexivity. }
  assert (Hstop : stopMonitoring w0 = w0) by reflexivity.
  eexists. split.
  { unfold startMonitoring, bind, modify. rewrite Hstop, Hne, Hexp.
    cbn iota beta. rewrite Hleft. cbn iota beta.
    subst w0. lazy. reflexivity. }
  split; [reflexivity|].
  destruct outcome as [[]|];
    match goal with
    | |- exists w2, advance ?f ?d ?w = Some w2 /\ _ =>
        let r := eval vm_compute in (advance f d w) in
        match r with Some ?w2 => exists w2 end
    end;
    vm_compute; repeat split; reflexivity.
Qed.
End TokenFacts.

Section TokenWitnesses.
Import JS TokenMonitor Examples.



Lemma malformed_credential_is_expired_witness :
  malformed example_platform token_not_base64 = true
  /\ malformed example_platform token_one_segment = true
  /\ malformed example_platform token_no_exp = true
  /\ fst (isTokenExpired example_platform token_no_exp monitor_world)
     = Ok true.
Proof.
  split; [reflexivity|]. split; [reflexivity|]. split; [reflexivity|].
  apply (malformed_credential_is_expired example_platform token_no_exp
           monitor_world).
  reflexivity.
Defined.

Lemma ten_minute_credential_timeline_witness :
  0 <= 1700000000000
  /\ fst (getTokenExpiry example_platform token_ten_minutes monitor_world)
     = Ok (Some (Num (1700000000000 + 600000)))
  /\ exists w1,
      startMonitoring example_platform token_ten_minutes monitor_world
      = (Ok tt, w1)
      /\ exists w2,
          advance 40 630000 w1 = Some w2
          /\ expiry_callback_times w2 = [630000].
Proof.
  split; [lia|]. split; [reflexivity|].
  destruct (ten_minute_credential_timeline example_platform token_ten_minutes
              1700000000000 (RefreshResolves false))
    as (w1 & H1 & _ & w2 & H2 & _ & _ & _ & _ & _ & H3).
  - lia.
  - reflexivity.
  - exists w1. split; [exact H1|]. exists w2. split; [exact H2|exact H3].
Defined.

(** C2 as stated fails: the credential expires 10 minutes from now.  When
    the clock reaches 10 minutes the logout modal has opened and shows 30
    seconds; the expiry callback has not been called. *)
Lemma expiry_callback_not_called_at_ten_minutes :
  fst (getTokenExpiry example_platform token_ten_minutes monitor_world)
  = Ok (Some (Num (1700000000000 + 600000)))
  /\ (fun w => (clock w, effects_at 600000 w, expiry_callback_times w))
       <$> advance 40 600000
             (snd (startMonitoring example_platform token_ten_minutes
                     monitor_world))
     = Some (600000, [Shown LogoutModal; CountdownText 30], []).
Proof. split; vm_compute; reflexivity. Qed.

End TokenWitnesses.

(** ** Optimistic Mutation Coordinator *)

Section AppFacts.
Import App.

Lemma find_feedback_set_votes i u h l :
  find_feedback (set_votes i u h l) i
  = (fun f => with_votes f u h) <$> find_feedback l i.
Proof.
  unfold find_feedback, set_votes.
  induction l as [|f l IH]; [reflexivity|].
  rewrite fmap_cons. cbn [List.find].
  destruct (id f =? i) eqn:E; simpl; rewrite E; [reflexivity|exact IH].
Qed.

Lemma set_votes_set_votes i u h u' h' l :
  set_votes i u h (set_votes i u' h' l) = set_votes i u h l.
Proof.
  unfold set_votes. rewrite <- list_fmap_compose.
  apply list_fmap_ext. intros _ f _. simpl.
  destruct (id f =? i) eqn:E; simpl; rewrite E; reflexivity.
Qed.

Lemma set_votes_elem i u h l f :
  f ∈ set_votes i u h l -> id f = i -> upvotes f = u /\ has_upvoted f = h.
Proof.
  unfold set_votes. intros Hin Hid.
  apply list_elem_of_fmap in Hin. destruct Hin as (g & -> & _).
  destruct (id g =? i) eqn:E; simpl in *; [auto|].
  apply Z.eqb_neq in E. contradiction.
Qed.

Lemma find_feedback_Some l i t :
  find_feedback l i = Some t -> t ∈ l /\ id t = i.
Proof.
  unfold find_feedback. intros H. apply find_some in H.
  destruct H as [Hin E]. apply Z.eqb_eq in E.
  split; [apply list_elem_of_In; exact Hin|exact E].
Qed.

Lemma with_votes_same f : with_votes f (upvotes f) (has_upvoted f) = f.
Proof. destruct f; reflexivity. Qed.

Lemma set_votes_restore i t l :
  NoDup (id <$> l) -> find_feedback l i = Some t ->
  set_votes i (upvotes t) (has_upvoted t) l = l.
Proof.
  intros Hnd Hfind. apply find_feedback_Some in Hfind as [Hin Hid].
  unfold set_votes. rewrite <- (list_fmap_id l) at 2.
  apply list_fmap_ext. intros k f Hk. simpl.
  destruct (id f =? i) eqn:E; [|reflexivity].
  apply Z.eqb_eq in E.
  assert (f = t); [|subst; apply with_votes_same].
  apply list_elem_of_lookup in Hin as [k' Hk'].
  assert (k = k'); [|congruence].
  eapply NoDup_lookup; [exact Hnd| |]; rewrite list_lookup_fmap.
  - rewrite Hk. reflexivity.
  - rewrite Hk'. simpl. congruence.
Qed.

(** C1, as the code has it.  Two toggles of the same entity, issued one
    after the other (with or without a render in between), whose
    responses arrive in reverse order: each success response overwrites
    the votes of the entity, whatever was issued since, so the cache ends
    with the votes of the response that arrived last, the first
    toggle's.  There is no generation counter. *)
Theorem reversed_responses_leave_first_response :
  forall (fs : list Feedback) (i : Z) (target : Feedback)
         (r1 r2 : UpvoteResponse) (render_between : bool),
    find_feedback fs i = Some target ->
    let s := run_events
               ([Toggle i] ++ (if render_between then [Render] else [])
                ++ [Toggle i; Respond 1 (Ok r2); Respond 0 (Ok r1)])
               (start fs) in
    votes_of i s = Some (resp_upvotes r1, resp_has_upvoted r1)
    /\ feedbacks (app s)
       = set_votes i (resp_upvotes r1) (resp_has_upvoted r1) fs
    /\ calls s = [DoneResolved; DoneResolved].
Proof.
  intros fs i target r1 r2 render_between Hfind s.
  assert (Hfinal : feedbacks (app s)
                   = set_votes i (resp_upvotes r1) (resp_has_upvoted r1) fs
                   /\ calls s = [DoneResolved; DoneResolved]).
  { subst s. unfold run_events, start.
    destruct render_between; simpl; unfold handleUpvoteFeedback;
      repeat (progress (simpl; rewrite ?find_feedback_set_votes, ?Hfind));
      rewrite !set_votes_set_votes; auto. }
  destruct Hfinal as [Hfs Hcalls].
  split; [|auto].
  unfold votes_of. rewrite Hfs, find_feedback_set_votes, Hfind. reflexivity.
Qed.

Lemma set_votes_ids i u h l : id <$> set_votes i u h l = id <$> l.
Proof.
  unfold set_votes. rewrite <- list_fmap_compose.
  apply list_fmap_ext. intros _ f _. simpl.
  destruct (id f =? i); reflexivity.
Qed.

Lemma find_feedback_known l i :
  i ∈ id <$> l -> exists f, find_feedback l i = Some f.
Proof.
  unfold find_feedback. induction l as [|g l IH]; simpl; intros Hin.
  - apply elem_of_nil in Hin. contradiction.
  - destruct (Z.eqb_spec (id g) i) as [E|E]; [eauto|].
    apply elem_of_cons in Hin. destruct Hin as [->|Hin]; [congruence|].
    apply IH, Hin.
Qed.

(** What [handleUpvoteFeedback] does behind its await, for the entry
    [targetFeedback] it read when it was called. *)
Definition after_await (i : Z) (targetFeedback : Feedback)
  (result : Exc UpvoteResponse) : Async :=
  match result with
  | Ok response =>
      SetFeedbacks
        (set_votes i (resp_upvotes response) (resp_has_upvoted response))
        Resolve
  | Throw err =>
      SetFeedbacks
        (set_votes i (upvotes targetFeedback) (has_upvoted targetFeedback))
        (SetError "Failed to upvote feedback. Please try again."
           (ConsoleError "Error upvoting feedback:" Resolve))
  end.

Lemma run_toggle rendered i st :
  run (handleUpvoteFeedback rendered i) st
  = match find_feedback rendered i with
    | None => (DoneResolved, st)
    | Some t =>
        (Pending i (after_await i t),
         {| feedbacks :=
              set_votes i
                (if has_upvoted t then upvotes t - 1 else upvotes t + 1)
                (negb (has_upvoted t)) (feedbacks st);
            error := empty_string; console := console st |})
    end.
Proof.
  unfold handleUpvoteFeedback.
  destruct (find_feedback rendered i); reflexivity.
Qed.

Lemma run_after_await i t result st :
  fst (run (after_await i t result) st) = DoneResolved
  /\ id <$> feedbacks (snd (run (after_await i t result) st))
     = id <$> feedbacks st.
Proof.
  destruct result as [response|err]; simpl; rewrite set_votes_ids; auto.
Qed.

(** The calls of a component that only its handler has made: a pending
    call waits with the handler's continuation. *)
Definition from_handler (status : Status) : Prop :=
  match status with
  | Pending j resume => exists t, resume = after_await j t
  | _ => True
  end.

(** No event adds or removes an entry: the cache and the rendered list
    hold the ids [ids], in that order. *)
Definition well_formed (ids : list Z) (s : System) : Prop :=
  id <$> feedbacks (app s) = ids
  /\ id <$> rendered s = ids
  /\ Forall from_handler (calls s).

Lemma well_formed_start fs : well_formed (id <$> fs) (start fs).
Proof. repeat split. constructor. Qed.

Lemma well_formed_step ids ev s :
  well_formed ids s -> well_formed ids (step ev s).
Proof.
  intros (Hc & Hr & Hcalls). unfold well_formed.
  destruct ev as [j| |k result]; cbn [step].
  - rewrite run_toggle. destruct (find_feedback (rendered s) j) as [t|];
      cbn [app rendered calls feedbacks];
      (split; [|split; [exact Hr|]]).
    + rewrite set_votes_ids. exact Hc.
    + apply Forall_app. split; [exact Hcalls|].
      constructor; [|constructor]. exists t. reflexivity.
    + exact Hc.
    + apply Forall_app. split; [exact Hcalls|]. repeat constructor.
  - cbn [app rendered calls]. repeat split; assumption.
  - destruct (calls s !! k) as [[j resume| |e]|] eqn:E;
      try (repeat split; assumption).
    pose proof (Forall_lookup_1 _ _ _ _ Hcalls E) as [t ->].
    destruct (run_after_await j t result (app s)) as [Hdone Hids].
    destruct (run (after_await j t result) (app s)) as [status st].
    cbn [fst snd app rendered calls] in *. subst status.
    split; [congruence|]. split; [exact Hr|].
    apply Forall_insert; [exact Hcalls|exact I].
Qed.

Lemma well_formed_run_events ids evs : forall s,
  well_formed ids s -> well_formed ids (run_events evs s).
Proof.
  unfold run_events. induction evs as [|ev evs IH]; intros s H; simpl;
    [exact H|].
  apply IH, well_formed_step, H.
Qed.

Lemma calls_kept_step ev s n status :
  (forall result, ev <> Respond n result) ->
  calls s !! n = Some status ->
  calls (step ev s) !! n = Some status.
Proof.
  intros Hev Hn. destruct ev as [j| |k result]; simpl.
  - destruct (run (handleUpvoteFeedback (rendered s) j) (app s)) as [st0 a].
    simpl. apply lookup_app_l_Some. exact Hn.
  - exact Hn.
  - destruct (calls s !! k) as [[j resume| |e]|] eqn:E; try exact Hn.
    destruct (run (resume result) (app s)) as [st0 a]. simpl.
    rewrite list_lookup_insert_ne; [exact Hn|].
    intros ->. apply (Hev result). reflexivity.
Qed.

Lemma calls_kept evs n status : forall s,
  Forall (fun ev => forall result, ev <> Respond n result) evs ->
  calls s !! n = Some status ->
  calls (run_events evs s) !! n = Some status.
Proof.
  unfold run_events. induction evs as [|ev evs IH]; intros s Hevs Hn; simpl;
    [exact Hn|].
  inversion Hevs; subst. apply IH; [assumption|].
  apply calls_kept_step; assumption.
Qed.

Lemma find_feedback_set_votes_other i j u h l :
  j <> i -> find_feedback (set_votes i u h l) j = find_feedback l j.
Proof.
  intros Hne. unfold find_feedback, set_votes.
  induction l as [|f l IH]; [reflexivity|].
  rewrite fmap_cons. cbn [List.find].
  destruct (id f =? i) eqn:E; simpl.
  - apply Z.eqb_eq in E.
    replace (id f =? j) with false by (symmetry; apply Z.eqb_neq; lia).
    exact IH.
  - destruct (id f =? j); [reflexivity|exact IH].
Qed.


(** C6, as the code has it.  The promise of [handleUpvoteFeedback] never
    rejects.  For an id the rendered list does not hold it resolves at
    once and nothing changes.  For a known id the optimistic votes are
    written and the promise stays pending on the request; it resolves
    when the response has been handled, success or failure. *)
Theorem toggle_promise_never_rejects :
  forall (rendered : list Feedback) (i : Z) (st : AppState),
    (find_feedback rendered i = None ->
     run (handleUpvoteFeedback rendered i) st = (DoneResolved, st))
    /\ (forall target, find_feedback rendered i = Some target ->
        exists resume st',
          run (handleUpvoteFeedback rendered i) st = (Pending i resume, st')
          /\ feedbacks st'
             = set_votes i
                 (if has_upvoted target then upvotes target - 1
                  else upvotes target + 1)
                 (negb (has_upvoted target)) (feedbacks st)
          /\ forall result st'', fst (run (resume result) st'') = DoneResolved)
    /\ (forall e, fst (run (handleUpvoteFeedback rendered i) st)
                  <> DoneRejected e).
Proof.
  intros rendered i st. unfold handleUpvoteFeedback.
  destruct (find_feedback rendered i) as [target|] eqn:Hfind.
  - split; [discriminate|]. split; [|simpl; discriminate].
    intros t [= <-]. eexists. eexists. split; [reflexivity|].
    split; [reflexivity|]. intros [response|err] st''; reflexivity.
  - split; [reflexivity|]. split; [discriminate|simpl; discriminate].
Qed.
End AppFacts.

Section AppWitnesses.
Import App Examples.

Lemma reversed_responses_leave_first_response_witness :
  find_feedback [feedback1] 1 = Some feedback1
  /\ votes_of 1
       (run_events [Toggle 1; Render; Toggle 1;
                    Respond 1 (Ok response_second);
                    Respond 0 (Ok response_first)]
          (start [feedback1]))
     = Some (1, true).
Proof.
  split; [reflexivity|].
  apply (reversed_responses_leave_first_response [feedback1] 1 feedback1
           response_first response_second true).
  reflexivity.
Defined.

(** C1 as stated fails: the entry has no votes; it is toggled twice, the
    server answers the first toggle with 1 vote and the second with 0,
    and the second answer arrives first.  The cache ends with the first
    answer, 1 vote and upvoted, not with the second. *)
Lemma reversed_responses_do_not_leave_second_response :
  let s := run_events [Toggle 1; Render; Toggle 1;
                       Respond 1 (Ok response_second);
                       Respond 0 (Ok response_first)]
             (start [feedback1]) in
  votes_of 1 s = Some (resp_upvotes response_first,
                       resp_has_upvoted response_first)
  /\ votes_of 1 s <> Some (resp_upvotes response_second,
                           resp_has_upvoted response_second).
Proof. split; [reflexivity|discriminate]. Qed.


Lemma toggle_promise_never_rejects_witness :
  find_feedback [feedback1] 99 = None
  /\ run (handleUpvoteFeedback [feedback1] 99) (app (start [feedback1]))
     = (DoneResolved, app (start [feedback1])).
Proof.
  split; [reflexivity|].
  destruct (toggle_promise_never_rejects [feedback1] 99
              (app (start [feedback1]))) as (H & _).
  apply H. reflexivity.
Defined.

(** C6 as stated fails: the cache holds one entry, with id 1, and id 99
    is toggled.  The promise resolves; it does not reject. *)
Lemma toggle_of_unknown_id_resolves :
  find_feedback [feedback1] 99 = None
  /\ fst (run (handleUpvoteFeedback [feedback1] 99) (app (start [feedback1])))
     = DoneResolved.
Proof. split; reflexivity. Qed.

End AppWitnesses.

(** * Further properties *)

(** ** Storage Adapter *)

Section StorageMore.
Import Storage.

Ltac storage_unfold :=
  unfold run_op, getItem, setItem, removeItem, clear, try_local_else_memory,
    update_memory, localStorage_getItem, localStorage_setItem,
    localStorage_removeItem, localStorage_clear, try_catch, bind, ret, gets,
    modify, console_log, ls_call, set_this, set_localStorage, with_memory in *.

(** X1.  On a browser store that does not throw, a value that was set
    is what get returns, the empty string included; other keys read as
    before; the in-memory map is not involved. *)
Theorem working_store_set_then_get :
  forall (w : World) (key value other : string),
    isAvailable (this w) = true ->
    ls_faults (localStorage w) = [] ->
    let w' := snd (setItem key value w) in
    fst (getItem key w') = Ok (Some value)
    /\ (other <> key -> fst (getItem other w') = fst (getItem other w))
    /\ memoryStorage (this w') = memoryStorage (this w).
Proof.
  intros [[av mem] [items faults] con] key value other Hav Hf w'.
  simpl in Hav, Hf. subst av faults w'. storage_unfold. simpl.
  rewrite lookup_insert_eq. split; [reflexivity|]. split; [|reflexivity].
  intros Hne. rewrite lookup_insert_ne by congruence. reflexivity.
Qed.

(** X2.  On the in-memory fallback, a non-empty value that was set is
    what get returns (the empty string reads back as null); other keys
    read as before; the browser store is not touched. *)
Theorem fallback_set_then_get :
  forall (w : World) (key value other : string),
    isAvailable (this w) = false ->
    let w' := snd (setItem key value w) in
    fst (getItem key w')
      = Ok (if decide (value = empty_string) then None else Some value)
    /\ (other <> key -> fst (getItem other w') = fst (getItem other w))
    /\ localStorage w' = localStorage w.
Proof.
  intros [[av mem] ls con] key value other Hav w'.
  simpl in Hav. subst av w'. storage_unfold. simpl.
  rewrite lookup_insert_eq. split; [reflexivity|]. split; [|reflexivity].
  intros Hne. rewrite lookup_insert_ne by congruence. reflexivity.
Qed.

(** X3.  After a successful probe, a set on which the browser store
    throws returns normally and puts the value in the in-memory map; the
    get that follows asks the browser store, which works again, and
    returns what the store held before: the value just set is not read
    back. *)
Theorem failed_write_is_not_read_back :
  forall (w : World) (key value : string) (rest : list bool),
    isAvailable (this w) = true ->
    ls_faults (localStorage w) = true :: rest ->
    hd false rest = false ->
    let w' := snd (setItem key value w) in
    fst (setItem key value w) = Ok tt
    /\ memoryStorage (this w') !! key = Some value
    /\ ls_items (localStorage w') = ls_items (localStorage w)
    /\ fst (getItem key w') = Ok (ls_items (localStorage w) !! key).
Proof.
  intros [[av mem] [items faults] con] key value rest Hav Hf Hrest w'.
  simpl in Hav, Hf. subst av faults w'.
  destruct rest as [|[] rest]; [|discriminate|]; storage_unfold; simpl;
    rewrite lookup_insert_eq; auto.
Qed.

(** X4.  What the constructor's probe leaves in the browser store: a
    successful probe removes whatever was stored under the sentinel key
    and changes nothing else; a probe whose write succeeds and whose
    remove throws leaves the sentinel in the store and the adapter on the
    fallback; a probe whose write throws leaves the store as it was. *)
Theorem constructor_probe_effect_on_store :
  forall (items : gmap string string) (rest : list bool),
    let made faults :=
      StorageService_new {| ls_items := items; ls_faults := faults |} in
    ls_items (localStorage (made [])) = delete "__storage_test__" items
    /\ ls_items (localStorage (made (false :: false :: rest)))
       = delete "__storage_test__" items
    /\ (ls_items (localStorage (made (false :: true :: rest)))
          = <["__storage_test__" := "__storage_test__"]> items
        /\ isAvailable (this (made (false :: true :: rest))) = false)
    /\ (ls_items (localStorage (made (true :: rest))) = items
        /\ isAvailable (this (made (true :: rest))) = false).
Proof.
  intros items rest made. subst made. unfold StorageService_new. simpl.
  unfold constructor, checkAvailability. storage_unfold. simpl.
  rewrite !delete_insert_eq. auto.
Qed.

(** X5.  On the fallback, or on a browser store that does not throw: a
    removed key reads as null and other keys read as before; after clear
    every key reads as null. *)
Theorem remove_and_clear_then_get :
  forall (w : World) (key other : string),
    isAvailable (this w) = false \/ ls_faults (localStorage w) = [] ->
    fst (getItem key (snd (removeItem key w))) = Ok None
    /\ (other <> key ->
        fst (getItem other (snd (removeItem key w))) = fst (getItem other w))
    /\ fst (getItem other (snd (clear w))) = Ok None.
Proof.
  intros [[av mem] [items faults] con] key other H. simpl in H.
  destruct H as [H|H]; subst; [|destruct av]; storage_unfold; simpl;
    rewrite ?lookup_delete_eq, ?lookup_empty;
    (split; [reflexivity|]); (split; [|reflexivity]);
    intros Hne; rewrite lookup_delete_ne by congruence; reflexivity.
Qed.
End StorageMore.

Section StorageMoreWitnesses.
Import Storage Examples.

Lemma working_store_set_then_get_witness :
  isAvailable (this (StorageService_new store_with_token)) = true
  /\ ls_faults (localStorage (StorageService_new store_with_token)) = []
  /\ fst (getItem "k" (snd (setItem "k" empty_string
                               (StorageService_new store_with_token))))
     = Ok (Some empty_string).
Proof.
  split; [reflexivity|]. split; [reflexivity|].
  apply (working_store_set_then_get (StorageService_new store_with_token)
           "k" empty_string "k"); reflexivity.
Defined.

Lemma fallback_set_then_get_witness :
  isAvailable (this (StorageService_new store_unavailable)) = false
  /\ fst (getItem "k" (snd (setItem "k" "v"
                               (StorageService_new store_unavailable))))
     = Ok (Some "v").
Proof.
  split; [reflexivity|].
  apply (fallback_set_then_get (StorageService_new store_unavailable)
           "k" "v" "k"). reflexivity.
Defined.

Lemma failed_write_is_not_read_back_witness :
  isAvailable (this (StorageService_new store_failing_later)) = true
  /\ ls_faults (localStorage (StorageService_new store_failing_later))
     = [true]
  /\ fst (getItem "k" (snd (setItem "k" "v"
                               (StorageService_new store_failing_later))))
     = Ok None.
Proof.
  split; [reflexivity|]. split; [reflexivity|].
  exact (proj2 (proj2 (proj2
           (failed_write_is_not_read_back
              (StorageService_new store_failing_later) "k" "v" []
              eq_refl eq_refl eq_refl)))).
Defined.

Lemma remove_and_clear_then_get_witness :
  ls_faults (localStorage (StorageService_new store_with_token)) = []
  /\ fst (getItem "auth_token"
            (snd (removeItem "auth_token"
                    (StorageService_new store_with_token))))
     = Ok None.
Proof.
  split; [reflexivity|].
  destruct (remove_and_clear_then_get (StorageService_new store_with_token)
              "auth_token" "k") as (H & _).
  - right. reflexivity.
  - exact H.
Defined.

End StorageMoreWitnesses.


(** ** Event Bus *)

Section BusMore.
Import Bus.

Definition emitter_ok (em : AuthEventEmitter) : Prop :=
  (forall ev r, handlers em ev = Some r -> (r < length (heap em))%nat)
  /\ (forall ev1 ev2 r,
        handlers em ev1 = Some r -> handlers em ev2 = Some r -> ev1 = ev2).

Lemma apply_op_emitter_ok op em : emitter_ok em -> emitter_ok (apply_op op em).
Proof.
  unfold emitter_ok. intros [Hrange Hinj].
  destruct op as [ev h|ev h|ev|]; simpl.
  - unfold on. destruct (handlers em ev) as [r|] eqn:E; simpl.
    + rewrite E. simpl. split; [|exact Hinj].
      intros ev' r' H. rewrite length_alter. eauto.
    + unfold Map_set. destruct (decide (ev = ev)); [|congruence]. simpl. split.
      * intros ev' r'. rewrite length_alter, length_app. simpl.
        destruct (decide (ev' = ev)); [intros [= <-]; lia|].
        intros H. apply Hrange in H. lia.
      * intros ev1 ev2 r.
        destruct (decide (ev1 = ev)), (decide (ev2 = ev)); subst; auto.
        -- intros [= <-] H. apply Hrange in H. lia.
        -- intros H [= <-]. apply Hrange in H. lia.
        -- apply Hinj.
  - unfold unsubscribe. destruct (handlers em ev) as [r|] eqn:E; simpl.
    + split; [|exact Hinj]. intros ev' r' H. rewrite length_alter. eauto.
    + split; assumption.
  - unfold Map_set. split.
    + intros ev' r'. destruct (decide (ev' = ev)); [discriminate|]. apply Hrange.
    + intros ev1 ev2 r.
      destruct (decide (ev1 = ev)), (decide (ev2 = ev)); try discriminate.
      apply Hinj.
  - split; intros; discriminate.
Qed.

Lemma build_emitter_ok ops : emitter_ok (build ops).
Proof.
  unfold build.
  assert (G : forall em, emitter_ok em ->
            emitter_ok (foldl (fun em op => apply_op op em) em ops)).
  { induction ops as [|op ops IH]; simpl; auto using apply_op_emitter_ok. }
  apply G. split; intros; discriminate.
Qed.

Lemma registered_on_fresh event h em :
  handlers em event = None -> registered event (on event h em) = [h].
Proof.
  intros E. unfold registered, on.
  repeat (rewrite E; cbn [handlers heap]). unfold Map_set.
  rewrite decide_True by reflexivity. cbn [handlers heap].
  rewrite decide_True by reflexivity.
  rewrite list_lookup_alter_eq.
  rewrite lookup_app_r by lia. rewrite Nat.sub_diag. reflexivity.
Qed.

Lemma registered_on_known event h em r d :
  handlers em event = Some r -> heap em !! r = Some d ->
  registered event (on event h em) = Set_values (Set_add h d).
Proof.
  intros E Ed. unfold registered, on.
  repeat (rewrite E; cbn [handlers heap]).
  rewrite list_lookup_alter_eq, Ed. reflexivity.
Qed.

Lemma registered_on event h em :
  emitter_ok em ->
  registered event (on event h em)
  = if bool_decide (h ∈ registered event em) then registered event em
    else registered event em ++ [h].
Proof.
  intros [Hrange _].
  destruct (handlers em event) as [r|] eqn:E.
  - destruct (heap em !! r) as [d|] eqn:Ed.
    + rewrite (registered_on_known _ _ _ _ _ E Ed).
      unfold registered. rewrite E, Ed. apply Set_values_add.
    + apply Hrange in E. apply lookup_ge_None in Ed. lia.
  - rewrite (registered_on_fresh _ _ _ E). unfold registered. rewrite E.
    reflexivity.
Qed.

Lemma registered_unsubscribe event h em :
  registered event (unsubscribe event h em)
  = filter (fun x => x ≠ h) (registered event em).
Proof.
  unfold registered, unsubscribe.
  destruct (handlers em event) as [r|] eqn:E;
    cbn [handlers heap]; rewrite ?E; cbn [handlers heap]; [|reflexivity].
  rewrite list_lookup_alter_eq.
  destruct (heap em !! r) as [d|]; [|reflexivity].
  apply Set_values_delete.
Qed.

(** X6.  For an emitter built by any sequence of calls: subscribing a
    handler that is already registered for the event changes nothing;
    subscribing a new one puts it last; subscribing twice is subscribing
    once; unsubscribing and subscribing again moves the handler to the
    end of the delivery order. *)
Theorem subscribe_appends_once :
  forall (ops : list BusOp) (event : AuthEventType) (h : Handler),
    let em := build ops in
    (h ∈ registered event em ->
     registered event (on event h em) = registered event em)
    /\ (h ∉ registered event em ->
        registered event (on event h em) = registered event em ++ [h])
    /\ registered event (on event h (on event h em))
       = registered event (on event h em)
    /\ registered event (on event h (unsubscribe event h em))
       = filter (fun x => x ≠ h) (registered event em) ++ [h].
Proof.
  intros ops event h em.
  assert (Hok : emitter_ok em) by apply build_emitter_ok.
  assert (Hin : h ∈ registered event (on event h em)).
  { rewrite registered_on by exact Hok.
    destruct (bool_decide (h ∈ registered event em)) eqn:E.
    - apply bool_decide_eq_true in E. exact E.
    - apply elem_of_app. right. apply list_elem_of_singleton. reflexivity. }
  split; [|split; [|split]].
  - intros H. rewrite registered_on by exact Hok.
    rewrite bool_decide_eq_true_2 by exact H. reflexivity.
  - intros H. rewrite registered_on by exact Hok.
    rewrite bool_decide_eq_false_2 by exact H. reflexivity.
  - rewrite (registered_on event h (on event h em))
      by (apply (apply_op_emitter_ok (CallOn event h)); exact Hok).
    rewrite bool_decide_eq_true_2 by exact Hin. reflexivity.
  - rewrite registered_on
      by (apply (apply_op_emitter_ok (CallUnsubscribe event h)); exact Hok).
    rewrite registered_unsubscribe.
    rewrite bool_decide_eq_false_2; [reflexivity|].
    intros H. apply list_elem_of_filter in H. tauto.
Qed.

Lemma registered_other_heap event em heap' :
  (forall r, handlers em event = Some r -> heap' !! r = heap em !! r) ->
  registered event {| handlers := handlers em; heap := heap' |}
  = registered event em.
Proof.
  unfold registered. simpl. intros H.
  destruct (handlers em event) as [r|]; [|reflexivity].
  rewrite H; reflexivity.
Qed.

(** X7.  For an emitter built by any sequence of calls, subscribing,
    unsubscribing and [off] on one event kind leave the handlers of every
    other kind as they are. *)
Theorem event_kinds_are_independent :
  forall (ops : list BusOp) (event other : AuthEventType) (h : Handler),
    other <> event ->
    let em := build ops in
    registered other (on event h em) = registered other em
    /\ registered other (unsubscribe event h em) = registered other em
    /\ registered other (off event em) = registered other em.
Proof.
  intros ops event other h Hne em.
  destruct (build_emitter_ok ops) as [Hrange Hinj]. fold em in Hrange, Hinj.
  split; [|split].
  - unfold on. destruct (handlers em event) as [r|] eqn:E; simpl.
    + rewrite E. simpl. apply registered_other_heap.
      intros r' H. apply list_lookup_alter_ne.
      intros ->. apply Hne. eapply Hinj; eauto.
    + unfold Map_set. destruct (decide (event = event)); [|congruence]. simpl.
      unfold registered. simpl.
      destruct (decide (other = event)); [contradiction|].
      destruct (handlers em other) as [r'|] eqn:E'; [|reflexivity].
      pose proof (Hrange _ _ E') as Hlt.
      rewrite list_lookup_alter_ne by lia.
      rewrite lookup_app_l by exact Hlt. reflexivity.
  - unfold unsubscribe. destruct (handlers em event) as [r|] eqn:E; simpl;
      [|reflexivity].
    apply registered_other_heap.
    intros r' H. apply list_lookup_alter_ne.
    intros ->. apply Hne. eapply Hinj; eauto.
  - unfold registered, off, Map_set. simpl.
    destruct (decide (other = event)); [contradiction|]. reflexivity.
Qed.


Section DeliveryMore.
Context {S : Type}.
Variable body : Handler -> M (AuthEventEmitter * S) unit.
Variable event : AuthEventType.

Lemma forEach_stable_heap fuel : forall r i st,
  (forall h st, fst (body h st) = Ok tt
                /\ heap (fst (snd (body h st))) = heap (fst st)) ->
  (length (default [] (heap (fst st) !! r)) - i < fuel)%nat ->
  exists st',
    forEach body fuel r i st
    = Some (Ok tt, Set_values (drop i (default [] (heap (fst st) !! r))), st').
Proof.
  induction fuel as [|fuel IH]; intros r i st Hheap Hfuel; [lia|].
  simpl. set (d := default [] (heap (fst st) !! r)) in *.
  destruct (d !! i) as [[h|]|] eqn:E.
  - rewrite (drop_S _ _ _ E).
    change (Set_values (Some h :: drop (Datatypes.S i) d))
      with (h :: Set_values (drop (Datatypes.S i) d)).
    assert (Hlt : (i < length d)%nat) by (eapply lookup_lt_Some; eauto).
    destruct (Hheap h st) as [Hok Hh].
    destruct (body h st) as [o st1]. cbn [fst snd] in Hok, Hh. subst o.
    destruct (IH r (Datatypes.S i) st1 Hheap) as [st' Hst'].
    + rewrite Hh. fold d. lia.
    + rewrite Hst', Hh. fold d. eauto.
  - rewrite (drop_S _ _ _ E).
    change (Set_values (None :: drop (Datatypes.S i) d))
      with (Set_values (drop (Datatypes.S i) d)).
    assert (Hlt : (i < length d)%nat) by (eapply lookup_lt_Some; eauto).
    apply IH; [exact Hheap|]. fold d. lia.
  - exists st. rewrite drop_ge by (apply lookup_ge_None; exact E).
    reflexivity.
Qed.

Lemma forEach_resubscribing_diverges fuel : forall r i j h0 st,
  (forall h st,
      fst (body h st) = Ok tt
      /\ fst (snd (body h st)) = on event h (unsubscribe event h (fst st))) ->
  handlers (fst st) event = Some r ->
  (i <= j)%nat ->
  default [] (heap (fst st) !! r) !! j = Some (Some h0) ->
  forEach body fuel r i st = None.
Proof.
  induction fuel as [|fuel IH]; intros r i j h0 st Hbody Hr Hij Hj;
    [reflexivity|].
  simpl. destruct (heap (fst st) !! r) as [d|] eqn:Ed;
    [|simpl in Hj; rewrite lookup_nil in Hj; discriminate].
  simpl in *.
  destruct (d !! i) as [[h|]|] eqn:E.
  - destruct (Hbody h st) as [Hok Hre].
    assert (Hem : fst (snd (body h st))
                  = {| handlers := handlers (fst st);
                       heap := alter (Set_add h)  r
                                 (alter (Set_delete h) r (heap (fst st))) |}).
    { rewrite Hre. unfold on, unsubscribe.
      repeat (rewrite Hr; cbn [handlers heap]). reflexivity. }
    assert (Hd : heap (fst (snd (body h st))) !! r
                 = Some (Set_delete h d ++ [Some h])).
    { rewrite Hem. cbn [heap]. rewrite !list_lookup_alter_eq, Ed. simpl.
      f_equal. unfold Set_add. rewrite bool_decide_eq_false_2; [reflexivity|].
      unfold Set_delete. intros Hin. apply list_elem_of_fmap in Hin.
      destruct Hin as (e & He & _).
      destruct (decide (e = Some h)); congruence. }
    destruct (body h st) as [o st1]. cbn [fst snd] in Hok, Hem, Hd. subst o.
    rewrite (IH r (Datatypes.S i) (length d) h st1); auto.
    + rewrite Hem. exact Hr.
    + apply lookup_lt_Some in E. lia.
    + rewrite Hd. simpl. rewrite lookup_app_r by (rewrite Set_delete_length; lia).
      rewrite Set_delete_length, Nat.sub_diag. reflexivity.
  - apply (IH r (Datatypes.S i) j h0 st); auto.
    + assert (i <> j) by congruence. lia.
    + rewrite Ed. exact Hj.
  - apply lookup_ge_None in E. apply lookup_lt_Some in Hj. lia.
Qed.

End DeliveryMore.

(** X8.  When the handlers call [off(event)] or [clear()] during a
    delivery of [event] and return, the pass still calls every handler
    that was registered when it began, in order: the delivery holds on to
    the Set it started with.  Afterwards the event has no handlers. *)
Theorem map_changes_during_delivery_do_not_cut_the_pass :
  forall (S : Type) (body : Handler -> M (AuthEventEmitter * S) unit)
         (event : AuthEventType) (em : AuthEventEmitter) (s : S) (fuel : nat),
    (forall h st,
        fst (body h st) = Ok tt
        /\ (fst (snd (body h st)) = off event (fst st)
            \/ fst (snd (body h st)) = clear (fst st))) ->
    (pass_length event em < fuel)%nat ->
    exists st',
      emit body fuel event (em, s) = Some (Ok tt, registered event em, st')
      /\ (registered event em <> [] -> registered event (fst st') = []).
Proof.
  intros S body event em s fuel Hbody Hfuel.
  assert (Hheap : forall h st,
             fst (body h st) = Ok tt
             /\ heap (fst (snd (body h st))) = heap (fst st)).
  { intros h st. destruct (Hbody h st) as [Hok [-> | ->]]; auto. }
  assert (Hrun : exists st',
             emit body fuel event (em, s)
             = Some (Ok tt, registered event em, st')).
  { unfold emit, registered, pass_length in *. simpl in *.
    destruct (handlers em event) as [r|]; [|eauto].
    destruct (forEach_stable_heap body fuel r 0 (em, s) Hheap) as [st' H];
      [simpl; lia|].
    exists st'. rewrite H. reflexivity. }
  destruct Hrun as [st' Hrun]. exists st'. split; [exact Hrun|].
  intros Hne.
  assert (HQ : forall h st, registered event (fst (snd (body h st))) = []).
  { intros h st. unfold registered.
    destruct (Hbody h st) as [_ [-> | ->]]; simpl; [|reflexivity].
    unfold Map_set. rewrite decide_True by reflexivity. reflexivity. }
  unfold emit in Hrun. simpl in Hrun.
  destruct (handlers em event) as [r|] eqn:Hr.
  - apply (forEach_invariant body
             (fun st => registered event (fst st) = []) fuel HQ
             r 0%nat (em, s) (Ok tt) (registered event em) st' Hrun Hne).
  - unfold registered in Hne. rewrite Hr in Hne. congruence.
Qed.

(** X9.  When every handler unsubscribes itself and subscribes itself
    again while it is called, and returns, a delivery of an event that
    has a handler never ends: the handler is appended behind the position
    of the pass each time, so no amount of fuel lets [emit] return. *)
Theorem resubscribing_handler_never_lets_emit_return :
  forall (S : Type) (body : Handler -> M (AuthEventEmitter * S) unit)
         (event : AuthEventType) (em : AuthEventEmitter) (s : S),
    (forall h st,
        fst (body h st) = Ok tt
        /\ fst (snd (body h st))
           = on event h (unsubscribe event h (fst st))) ->
    registered event em <> [] ->
    forall fuel, emit body fuel event (em, s) = None.
Proof.
  intros S body event em s Hbody Hne fuel.
  unfold emit, registered in *. simpl.
  destruct (handlers em event) as [r|] eqn:Hr; [|congruence].
  destruct (Set_values (default [] (heap em !! r))) as [|h l] eqn:Hv;
    [congruence|].
  assert (Hin : h ∈ Set_values (default [] (heap em !! r))).
  { rewrite Hv. apply list_elem_of_here. }
  unfold Set_values in Hin. apply list_elem_of_omap in Hin.
  destruct Hin as (e & He & Hid). simpl in Hid. subst e.
  apply list_elem_of_lookup in He. destruct He as [j Hj].
  apply (forEach_resubscribing_diverges body event fuel r 0 j h (em, s));
    auto. lia.
Qed.

End BusMore.

Section BusMoreWitnesses.
Import Bus Examples.

Lemma subscribe_appends_once_witness :
  0%nat ∈ registered unauthorized two_handlers
  /\ registered unauthorized (on unauthorized 0%nat two_handlers)
     = [0%nat; 1%nat].
Proof.
  assert (H : 0%nat ∈ registered unauthorized two_handlers)
    by apply list_elem_of_here.
  split; [exact H|].
  exact (proj1 (subscribe_appends_once
                  [CallOn unauthorized 0%nat; CallOn unauthorized 1%nat]
                  unauthorized 0%nat) H).
Defined.

Lemma event_kinds_are_independent_witness :
  logout <> unauthorized
  /\ registered logout (on unauthorized 2%nat two_handlers) = [].
Proof.
  assert (H : logout <> unauthorized) by discriminate.
  split; [exact H|].
  exact (proj1 (event_kinds_are_independent
                  [CallOn unauthorized 0%nat; CallOn unauthorized 1%nat]
                  unauthorized logout 2%nat H)).
Defined.

Lemma map_changes_during_delivery_do_not_cut_the_pass_witness :
  (pass_length unauthorized two_handlers < 3)%nat
  /\ exists st',
      emit (fun (h : Handler) (st : AuthEventEmitter * unit) =>
              (Ok tt, (off unauthorized (fst st), snd st)))
        3 unauthorized (two_handlers, tt)
      = Some (Ok tt, [0%nat; 1%nat], st')
      /\ registered unauthorized (fst st') = [].
Proof.
  assert (H : (pass_length unauthorized two_handlers < 3)%nat)
    by (vm_compute; lia).
  split; [exact H|].
  destruct (map_changes_during_delivery_do_not_cut_the_pass unit
              (fun h st => (Ok tt, (off unauthorized (fst st), snd st)))
              unauthorized two_handlers tt 3%nat
              (fun h st => conj eq_refl (or_introl eq_refl)) H)
    as (st' & H1 & H2).
  exists st'. split; [exact H1|]. apply H2. discriminate.
Defined.

Lemma resubscribing_handler_never_lets_emit_return_witness :
  registered unauthorized two_handlers <> []
  /\ emit (fun (h : Handler) (st : AuthEventEmitter * unit) =>
             (Ok tt,
              (on unauthorized h (unsubscribe unauthorized h (fst st)),
               snd st)))
       1000 unauthorized (two_handlers, tt)
     = None.
Proof.
  assert (H : registered unauthorized two_handlers <> []) by discriminate.
  split; [exact H|].
  exact (resubscribing_handler_never_lets_emit_return unit
           (fun h st =>
              (Ok tt,
               (on unauthorized h (unsubscribe unauthorized h (fst st)),
                snd st)))
           unauthorized two_handlers tt (fun h st => conj eq_refl eq_refl)
           H 1000%nat).
Defined.

End BusMoreWitnesses.


(** ** Session Monitor *)

Section TokenMore.
Import JS TokenMonitor.
Variable P : Platform.

Lemma time_left_inv token w t :
  fst (getTimeUntilExpiry P token w) = Ok (Some (Num t)) ->
  token_expiry P token = Ok (Some (Num (Date_now w + t)))
  /\ Date_now w + t <> 0.
Proof.
  rewrite getTimeUntilExpiry_eq. simpl.
  destruct (token_expiry P token) as [[[|e]|]|err]; simpl; try discriminate.
  destruct (e =? 0) eqn:E0; [discriminate|].
  intros [= <-]. apply Z.eqb_neq in E0. split; [do 3 f_equal; lia|lia].
Qed.

Lemma stopMonitoring_idle w :
  warningTimer (this w) = None -> refreshTimer (this w) = None ->
  logoutTimer (this w) = None -> stopMonitoring w = w.
Proof.
  unfold stopMonitoring. intros -> H2 H3. rewrite H2, H3. reflexivity.
Qed.

Lemma stopMonitoring_idempotent w :
  stopMonitoring (stopMonitoring w) = stopMonitoring w.
Proof.
  destruct (stopMonitoring_fields w) as (H1 & H2 & H3 & _).
  apply stopMonitoring_idle; assumption.
Qed.

Lemma timer_delay_small d :
  0 <= d <= 2147483647 -> timer_delay (Num d) = d.
Proof.
  intros Hd. unfold timer_delay, ToInt32.
  rewrite Z.mod_small by lia. lia.
Qed.

Lemma timer_delay_wrapped d :
  2147483648 <= d < 4294967296 -> timer_delay (Num d) = 0.
Proof.
  intros Hd. unfold timer_delay, ToInt32.
  replace (d + 2147483648) with (d - 2147483648 + 1 * 4294967296) by lia.
  rewrite Z_mod_plus_full, Z.mod_small by lia. lia.
Qed.

(** The three scheduling steps of [startMonitoring], for [t]
    milliseconds left. *)
Definition schedule (cfg : TokenExpiryConfig) (t : Z) (w0 : World) : World :=
  let w1 :=
    if warningMinutes cfg * 60 * 1000 <? t then
      let '(id, w') :=
        setTimeout DoShowExpiryWarning
          (Num (t - warningMinutes cfg * 60 * 1000)) w0 in
      set_warningTimer (Some id) w'
    else w0 in
  let w2 :=
    if refreshMinutes cfg * 60 * 1000 <? t then
      let '(id, w') :=
        setTimeout DoAttemptTokenRefresh
          (Num (t - refreshMinutes cfg * 60 * 1000)) w1 in
      set_refreshTimer (Some id) w'
    else w1 in
  let '(id, w') := setTimeout DoHandleTokenExpiry (Num t) w2 in
  set_logoutTimer (Some id) w'.

Lemma startMonitoring_schedule token w t :
  fst (getTimeUntilExpiry P token w) = Ok (Some (Num t)) ->
  0 < t ->
  startMonitoring P token w
  = (Ok tt, schedule (config (this w)) t (stopMonitoring w)).
Proof.
  intros Hleft Hpos.
  destruct (time_left_inv _ _ _ Hleft) as [He Hne].
  destruct (stopMonitoring_fields w) as (_ & _ & _ & _ & _ & Hnow & _).
  assert (Hcfg : config (this (stopMonitoring w)) = config (this w)).
  { destruct w as [[wt rt lt cfg c1 c2] ts n o c e].
    unfold stopMonitoring. simpl. destruct wt, rt, lt; reflexivity. }
  assert (Htok : bool_decide (token = empty_string) = false).
  { apply bool_decide_eq_false. intros ->.
    rewrite token_expiry_empty in He. discriminate. }
  assert (Hl : getTimeUntilExpiry P token (stopMonitoring w)
               = (Ok (Some (Num t)), stopMonitoring w)).
  { rewrite getTimeUntilExpiry_eq, He. simpl.
    rewrite (token_expiry_some_decodes _ _ _ He).
    replace (Date_now w + t =? 0) with false
      by (symmetry; apply Z.eqb_neq; exact Hne).
    rewrite Hnow. do 4 f_equal. lia. }
  assert (Hx : isTokenExpired P token (stopMonitoring w)
               = (Ok false, stopMonitoring w)).
  { unfold isTokenExpired, bind. rewrite Hl. unfold ret. simpl.
    replace (t <=? 0) with false by (symmetry; apply Z.leb_gt; lia).
    reflexivity. }
  unfold startMonitoring, bind, modify. rewrite Htok, Hx.
  cbn iota beta. rewrite Hl. cbn iota beta. unfold gets, ret.
  unfold number_falsy.
  replace (t =? 0) with false by (symmetry; apply Z.eqb_neq; lia).
  cbn beta iota. rewrite Hcfg.
  change (default NaN (Some (Num t))) with (Num t).
  unfold schedule, gt, sub.
  destruct (warningMinutes (config (this w)) * 60 * 1000 <? t);
    destruct (refreshMinutes (config (this w)) * 60 * 1000 <? t);
    reflexivity.
Qed.


Lemma stopMonitoring_clock w :
  clock (stopMonitoring w) = clock w
  /\ config (this (stopMonitoring w)) = config (this w)
  /\ onTokenExpiry (this (stopMonitoring w)) = onTokenExpiry (this w)
  /\ onTokenRefresh (this (stopMonitoring w)) = onTokenRefresh (this w).
Proof.
  destruct w as [[wt rt lt cfg c1 c2] ts n o c e].
  unfold stopMonitoring. simpl. destruct wt, rt, lt; auto.
Qed.

(** X10.  For a credential with [t > 0] milliseconds left,
    [startMonitoring] returns normally and adds, to the timers that
    [stopMonitoring] leaves, a warning timer for the delay
    [t - warning window] if the warning window is shorter than [t], a
    refresh timer for the delay [t - refresh window] if the refresh
    window is shorter than [t], and always the expiry timer for the delay
    [t]; nothing is shown or called yet.  With windows that are not
    negative: when [t] is at most 2147483647 ms each timer is due its
    delay from now; when [t] is below 2^32 ms and every delay is at least
    2^31 ms (a credential with some 25 to 49 days left) all three timers
    are due at once, because the timer keeps its delay in 32 bits. *)
Theorem start_sets_timers_by_time_left :
  forall (token : string) (w : World) (t : Z),
    fst (getTimeUntilExpiry P token w) = Ok (Some (Num t)) ->
    0 < t ->
    let cfg := config (this w) in
    let warning := warningMinutes cfg * 60 * 1000 in
    let refresh := refreshMinutes cfg * 60 * 1000 in
    let w1 := snd (startMonitoring P token w) in
    let scheduled (from_now : Z -> Z) :=
      (if warning <? t
       then [(clock w + from_now (t - warning), DoShowExpiryWarning)]
       else [])
      ++ (if refresh <? t
          then [(clock w + from_now (t - refresh), DoAttemptTokenRefresh)]
          else [])
      ++ [(clock w + from_now t, DoHandleTokenExpiry)] in
    fst (startMonitoring P token w) = Ok tt
    /\ due_action <$> timers w1
       = (due_action <$> timers (stopMonitoring w))
         ++ scheduled (fun d => timer_delay (Num d))
    /\ effects w1 = effects w
    /\ (0 <= warning -> 0 <= refresh -> t <= 2147483647 ->
        scheduled (fun d => timer_delay (Num d)) = scheduled (fun d => d))
    /\ (0 <= warning -> 0 <= refresh ->
        2147483648 + warning <= t -> 2147483648 + refresh <= t ->
        t < 4294967296 ->
        scheduled (fun d => timer_delay (Num d)) = scheduled (fun _ => 0)).
Proof.
  intros token w t Hleft Hpos cfg warning refresh w1 scheduled.
  subst w1 scheduled. cbn beta.
  rewrite (startMonitoring_schedule _ _ _ Hleft Hpos).
  destruct (stopMonitoring_fields w) as (_ & _ & _ & _ & Heff & _).
  destruct (stopMonitoring_clock w) as (Hclk & _).
  split; [reflexivity|]. fold cfg. unfold schedule. fold warning refresh.
  split; [|split; [|split]].
  - unfold setTimeout.
    destruct (warning <? t); destruct (refresh <? t);
      simpl; rewrite ?fmap_app, <- ?app_assoc, ?Hclk; reflexivity.
  - unfold setTimeout.
    destruct (warning <? t); destruct (refresh <? t); simpl; exact Heff.
  - intros Hw Hr Ht.
    destruct (Z.ltb_spec warning t); destruct (Z.ltb_spec refresh t);
      rewrite ?timer_delay_small by lia; reflexivity.
  - intros Hw Hr Htw Htr Ht.
    destruct (Z.ltb_spec warning t); destruct (Z.ltb_spec refresh t);
      try lia.
    rewrite !timer_delay_wrapped by lia. reflexivity.
Qed.

Lemma filter_fresh (old : list Timer) (n id : positive) :
  (forall x, x ∈ old -> (timer_id x < n)%positive) ->
  (n <= id)%positive ->
  filter (fun x => timer_id x ≠ id) old = old.
Proof.
  intros Hold Hid. induction old as [|x old IH]; [reflexivity|].
  rewrite filter_cons_True.
  - f_equal. apply IH. intros y Hy. apply Hold. apply list_elem_of_further, Hy.
  - pose proof (Hold x (list_elem_of_here _ _)). lia.
Qed.

Lemma startMonitoring_cases token w :
  (exists t, fst (getTimeUntilExpiry P token w) = Ok (Some (Num t)) /\ 0 < t)
  \/ (timers (snd (startMonitoring P token w)) = timers (stopMonitoring w)
      /\ this (snd (startMonitoring P token w)) = this (stopMonitoring w)
      /\ next_timer (snd (startMonitoring P token w)) = next_timer w
      /\ Date_now (snd (startMonitoring P token w)) = Date_now w).
Proof.
  destruct (stopMonitoring_fields w) as (_ & _ & _ & Hnext & _ & Hnow & _).
  assert (Hfr : forall w', timers (after_decode P token w') = timers w'
                  /\ this (after_decode P token w') = this w'
                  /\ next_timer (after_decode P token w') = next_timer w'
                  /\ Date_now (after_decode P token w') = Date_now w').
  { intros w'. destruct (after_decode_frame P token w') as (A & B & C).
    pose proof (Date_now_after_decode P token w'). auto. }
  unfold startMonitoring, bind, modify. cbn beta iota.
  destruct (bool_decide (token = empty_string)); [right; simpl; auto|].
  rewrite isTokenExpired_eq.
  destruct (token_expiry P token) as [[[|e]|]|err] eqn:He; simpl;
    try (right; destruct (Hfr (stopMonitoring w)) as (A & B & C & D);
         repeat split; congruence).
  destruct (e =? 0) eqn:E0;
    [right; destruct (Hfr (stopMonitoring w)) as (A & B & C & D);
     repeat split; simpl; congruence|].
  destruct (e - Date_now (stopMonitoring w) <=? 0) eqn:Ele;
    [right; destruct (Hfr (stopMonitoring w)) as (A & B & C & D);
     repeat split; simpl; congruence|].
  left. exists (e - Date_now w). rewrite getTimeUntilExpiry_eq, He. simpl.
  rewrite E0. split; [reflexivity|]. apply Z.leb_gt in Ele. lia.
Qed.

Lemma startMonitoring_Date_now token w :
  Date_now (snd (startMonitoring P token w)) = Date_now w.
Proof.
  destruct (stopMonitoring_fields w) as (_ & _ & _ & _ & _ & Hnow & _).
  destruct (startMonitoring_cases token w) as [(t & Hleft & Hpos)|H];
    [|tauto].
  rewrite (startMonitoring_schedule _ _ _ Hleft Hpos). simpl.
  rewrite <- Hnow. unfold schedule, setTimeout.
  destruct (_ <? t); destruct (_ <? t); reflexivity.
Qed.

(** X11.  For every credential, [stopMonitoring] after
    [startMonitoring] leaves exactly the timers that [stopMonitoring]
    alone would have left (the timers of notifications still showing) and
    clears the three timer fields: everything [startMonitoring] scheduled
    is cancelled. *)
Theorem stop_cancels_what_start_scheduled :
  forall (token : string) (w : World),
    ids_fresh w ->
    let w1 := snd (startMonitoring P token w) in
    timers (stopMonitoring w1) = timers (stopMonitoring w)
    /\ warningTimer (this (stopMonitoring w1)) = None
    /\ refreshTimer (this (stopMonitoring w1)) = None
    /\ logoutTimer (this (stopMonitoring w1)) = None.
Proof.
  intros token w Hfresh w1.
  destruct (stopMonitoring_fields w1) as (F1 & F2 & F3 & _).
  split; [|auto]. subst w1.
  destruct (stopMonitoring_fields w) as (G1 & G2 & G3 & Gn & _ & _ & Gsub).
  destruct (startMonitoring_cases token w)
    as [(t & Hleft & Hpos)|(A & B & C & _)].
  - rewrite (startMonitoring_schedule _ _ _ Hleft Hpos).
    set (w0 := stopMonitoring w) in *.
    assert (Hold : forall x, x ∈ timers w0 ->
                     (timer_id x < next_timer w0)%positive).
    { intros x Hx. rewrite Gn. apply Hfresh, Gsub, Hx. }
    destruct w0 as [[wt rt lt c0 c1 c2] ts n o c e]. simpl in *. subst.
    unfold schedule, stopMonitoring, setTimeout, clearTimeout. simpl.
    destruct (warningMinutes (config (this w)) * 60 * 1000 <? t);
      destruct (refreshMinutes (config (this w)) * 60 * 1000 <? t);
      simpl; rewrite ?filter_app; simpl;
      repeat (rewrite filter_cons, ?filter_nil; simpl;
              destruct (decide _); try lia; try congruence);
      repeat (rewrite (filter_fresh ts (next_timer w) _ Hold) by lia);
      rewrite ?app_nil_r; reflexivity.
  - rewrite stopMonitoring_idle; rewrite ?B; auto.
Qed.

(** X12.  For a credential that decodes to the expiry [e]
    (milliseconds), [isTokenExpired] is true exactly when [e] is not
    after [Date.now()], and it changes nothing: no timer, no field, no
    log entry. *)
Theorem isTokenExpired_compares_expiry_with_now :
  forall (token : string) (w : World) (e : Z),
    fst (getTokenExpiry P token w) = Ok (Some (Num e)) ->
    0 <= Date_now w ->
    isTokenExpired P token w = (Ok (bool_decide (e <= Date_now w)), w).
Proof.
  intros token w e He Hnow. rewrite getTokenExpiry_eq in He. simpl in He.
  rewrite isTokenExpired_eq, He, (token_expiry_some_decodes _ _ _ He). simpl.
  do 2 f_equal. destruct (e =? 0) eqn:E0.
  - apply Z.eqb_eq in E0. symmetry. apply bool_decide_eq_true. lia.
  - destruct (e - Date_now w <=? 0) eqn:E; symmetry.
    + apply bool_decide_eq_true. apply Z.leb_le in E. lia.
    + apply bool_decide_eq_false. apply Z.leb_gt in E. lia.
Qed.


Lemma expiry_callback_times_observe e w :
  expiry_callback_times (observe e w)
  = expiry_callback_times w
    ++ match e with Called_onTokenExpiry => [clock w] | _ => [] end.
Proof.
  unfold expiry_callback_times, observe. simpl. rewrite omap_app.
  destruct e; simpl; rewrite ?app_nil_r; reflexivity.
Qed.

Lemma advance_S fuel deadline w :
  advance (S fuel) deadline w
  = match next_timer_due (timers w) with
    | Some t =>
        if timer_due t <=? deadline then advance fuel deadline (fire t w)
        else Some (set_clock (Z.max (clock w) deadline) w)
    | None => Some (set_clock (Z.max (clock w) deadline) w)
    end.
Proof. reflexivity. Qed.

Lemma advance_single_timer fuel deadline w a delay :
  timers w = [] -> 0 <= delay <= 2147483647 ->
  clock w + delay <= deadline ->
  advance (S fuel) deadline (snd (setTimeout a (Num delay) w))
  = advance fuel deadline
      (run_action a
         (set_clock (clock w + delay)
            (set_timers [] (snd (setTimeout a (Num delay) w))))).
Proof.
  intros Hts Hd Hle. rewrite advance_S. unfold setTimeout. cbn [snd timers].
  rewrite Hts. cbn [app next_timer_due timer_due].
  rewrite (timer_delay_small delay) by lia.
  replace (clock w + delay <=? deadline) with true
    by (symmetry; apply Z.leb_le; lia).
  unfold fire, clearTimeout. cbn [timer_id timer_due timer_action timers].
  rewrite filter_cons_False by (intros H; apply H; reflexivity).
  rewrite filter_nil. cbn [set_timers set_clock clock timers this next_timer
                             time_origin effects].
  replace (Z.max (clock w) (clock w + delay)) with (clock w + delay) by lia.
  reflexivity.
Qed.

Lemma countdown_runs (n : nat) : forall w,
  timers w = [] ->
  onTokenExpiry (this w) = true ->
  exists w',
    advance (S (S n)) (clock w + 1000 * Z.of_nat n)
      (updateCountdown (Z.of_nat n) w) = Some w'
    /\ timers w' = []
    /\ expiry_callback_times w'
       = expiry_callback_times w ++ [clock w + 1000 * Z.of_nat n].
Proof.
  induction n as [|k IH]; intros w Hts Hcb.
  - destruct w as [tm ts nt o c e]. simpl in Hts, Hcb. subst ts.
    unfold updateCountdown. simpl. rewrite Hcb. simpl.
    eexists. split; [reflexivity|]. split; [reflexivity|].
    unfold expiry_callback_times. simpl. rewrite !omap_app. simpl.
    rewrite !app_nil_r. do 2 f_equal. lia.
  - unfold updateCountdown.
    replace (Z.of_nat (S k) - 1) with (Z.of_nat k) by lia.
    replace (Z.of_nat k <? 0) with false by (symmetry; apply Z.ltb_ge; lia).
    set (w1 := observe (CountdownText (Z.of_nat (S k))) w).
    rewrite (advance_single_timer (S (S k)) _ w1 _ 1000);
      [|exact Hts|lia|subst w1; simpl; lia].
    cbn [run_action].
    set (w2 := set_clock (clock w1 + 1000) (set_timers [] _)).
    destruct (IH w2) as (w' & Hadv & Hts' & Hcalls); [reflexivity|exact Hcb|].
    exists w'. split.
    + rewrite <- Hadv. f_equal. subst w2 w1. simpl. lia.
    + split; [exact Hts'|]. rewrite Hcalls. subst w2 w1.
      unfold expiry_callback_times. simpl. rewrite omap_app. simpl.
      rewrite app_nil_r. do 2 f_equal. lia.
Qed.

(** X13.  When the expiry timer fires with no other timer pending: if
    no expiry callback is registered nothing happens at all; if one is,
    it is called exactly [logoutCountdownSeconds] seconds later, for any
    configured number of seconds [n >= 0], and no timer is left. *)
Theorem expiry_callback_follows_the_countdown :
  forall (w : World) (n : nat),
    timers w = [] ->
    logoutCountdownSeconds (config (this w)) = Z.of_nat n ->
    (onTokenExpiry (this w) = false -> handleTokenExpiry w = w)
    /\ (onTokenExpiry (this w) = true ->
        exists w',
          advance (S (S n)) (clock w + 1000 * Z.of_nat n)
            (handleTokenExpiry w) = Some w'
          /\ timers w' = []
          /\ expiry_callback_times w'
             = expiry_callback_times w ++ [clock w + 1000 * Z.of_nat n]).
Proof.
  intros w n Hts Hn. unfold handleTokenExpiry. split; intros Hcb; rewrite Hcb;
    [reflexivity|].
  unfold showLogoutCountdown. rewrite Hn.
  destruct (countdown_runs n (observe (Shown LogoutModal) w))
    as (w' & H1 & H2 & H3); [exact Hts|exact Hcb|].
  exists w'. split; [exact H1|]. split; [exact H2|].
  rewrite H3, expiry_callback_times_observe, app_nil_r. reflexivity.
Qed.


Ltac decide_comparisons :=
  repeat match goal with
    | |- context [?a <? ?b] => destruct (Z.ltb_spec a b); try lia
    | |- context [?a =? ?b] => destruct (Z.eqb_spec a b); try lia
    | |- context [?a <=? ?b] => destruct (Z.leb_spec a b); try lia
    | |- context [Pos.ltb ?a ?b] => destruct (Pos.ltb_spec a b); try lia
    end.

(** X14.  For any configuration whose warning window is positive and
    longer than its refresh window, which is not negative, and a
    credential with more time left than the warning window but no more
    than 2147483647 ms (the longest delay a timer keeps): letting the
    clock advance from the start of monitoring to [t - warning window]
    shows the expiry warning at that moment, and that is all that has
    happened by then (no refresh, no countdown, no expiry callback). *)
Theorem warning_fires_when_the_window_opens :
  forall (token : string) (w : World) (t : Z),
    timers w = [] ->
    fst (getTimeUntilExpiry P token w) = Ok (Some (Num t)) ->
    let W := warningMinutes (config (this w)) * 60 * 1000 in
    let R := refreshMinutes (config (this w)) * 60 * 1000 in
    0 < W -> 0 <= R -> R < W -> W < t -> t <= 2147483647 ->
    exists w2,
      advance 2 (clock w + (t - W)) (snd (startMonitoring P token w)) = Some w2
      /\ effects w2
         = effects w
           ++ [(clock w + (t - W),
                Shown (ExpiryWarning (warningMinutes (config (this w)))))]
      /\ clock w2 = clock w + (t - W).
Proof.
  intros token w t Hts Hleft W R HW HR0 HR Ht Hmax.
  rewrite (startMonitoring_schedule _ _ _ Hleft) by lia.
  destruct (stopMonitoring_fields w) as (_ & _ & _ & _ & Heff & _ & Hsub).
  destruct (stopMonitoring_clock w) as (Hclk & Hcfg & _).
  assert (Hts0 : timers (stopMonitoring w) = []).
  { destruct (timers (stopMonitoring w)) as [|x l] eqn:E; [reflexivity|].
    pose proof (Hsub x (list_elem_of_here _ _)) as Hx. rewrite Hts in Hx.
    apply elem_of_nil in Hx. contradiction. }
  set (w0 := stopMonitoring w) in *.
  unfold schedule. fold W R.
  replace (W <? t) with true by (symmetry; apply Z.ltb_lt; lia).
  replace (R <? t) with true by (symmetry; apply Z.ltb_lt; lia).
  rewrite <- Hcfg. clearbody W R.
  destruct w0 as [tm ts nt o c e]. simpl in Heff, Hclk, Hts0. subst ts c e.
  unfold showExpiryWarning, setTimeout. cbn iota beta.
  rewrite !timer_delay_small by lia.
  repeat (progress (unfold earlier, fire, clearTimeout, showExpiryWarning,
                      setTimeout;
                    rewrite ?timer_delay_small by lia;
                    simpl; change (ToInt32 10000) with 10000;
                    rewrite ?Z.max_r by lia; decide_comparisons;
                    repeat (rewrite filter_cons; cbn [timer_id];
                            destruct (decide _); try lia; try congruence);
                    rewrite ?filter_nil)).
  all: eexists; (split; [reflexivity|]); simpl; split; [reflexivity|lia].
Qed.

End TokenMore.

Section TokenMoreWitnesses.
Import JS TokenMonitor Examples.

Lemma start_sets_timers_by_time_left_witness :
  fst (getTimeUntilExpiry example_platform token_ten_minutes monitor_world)
  = Ok (Some (Num 600000))
  /\ 0 < 600000
  /\ due_action
       <$> timers (snd (startMonitoring example_platform token_ten_minutes
                          monitor_world))
     = [(300000, DoShowExpiryWarning); (480000, DoAttemptTokenRefresh);
        (600000, DoHandleTokenExpiry)].
Proof.
  assert (H : fst (getTimeUntilExpiry example_platform token_ten_minutes
                     monitor_world) = Ok (Some (Num 600000)))
    by reflexivity.
  assert (H0 : 0 < 600000) by lia.
  split; [exact H|]. split; [exact H0|].
  exact (proj1 (proj2 (start_sets_timers_by_time_left example_platform
                         token_ten_minutes monitor_world 600000 H H0))).
Defined.

Lemma stop_cancels_what_start_scheduled_witness :
  ids_fresh monitor_world
  /\ timers (stopMonitoring
               (snd (startMonitoring example_platform token_ten_minutes
                       monitor_world)))
     = [].
Proof.
  assert (H : ids_fresh monitor_world).
  { intros x Hx. apply elem_of_nil in Hx. contradiction. }
  split; [exact H|].
  exact (proj1 (stop_cancels_what_start_scheduled example_platform
                  token_ten_minutes monitor_world H)).
Defined.

Lemma isTokenExpired_compares_expiry_with_now_witness :
  fst (getTokenExpiry example_platform token_ten_minutes monitor_world)
  = Ok (Some (Num 1700000600000))
  /\ 0 <= Date_now monitor_world
  /\ fst (isTokenExpired example_platform token_ten_minutes monitor_world)
     = Ok false.
Proof.
  assert (H : fst (getTokenExpiry example_platform token_ten_minutes
                     monitor_world) = Ok (Some (Num 1700000600000)))
    by reflexivity.
  assert (H0 : 0 <= Date_now monitor_world) by (vm_compute; discriminate).
  split; [exact H|]. split; [exact H0|].
  rewrite (isTokenExpired_compares_expiry_with_now example_platform
             token_ten_minutes monitor_world 1700000600000 H H0).
  reflexivity.
Defined.

Lemma expiry_callback_follows_the_countdown_witness :
  timers monitor_world = []
  /\ logoutCountdownSeconds (config (this monitor_world)) = Z.of_nat 30
  /\ onTokenExpiry (this monitor_world) = true
  /\ exists w',
      advance 32 (clock monitor_world + 1000 * Z.of_nat 30)
        (handleTokenExpiry monitor_world) = Some w'
      /\ expiry_callback_times w' = [30000].
Proof.
  split; [reflexivity|]. split; [reflexivity|]. split; [reflexivity|].
  destruct (proj2 (expiry_callback_follows_the_countdown monitor_world 30
                     eq_refl eq_refl) eq_refl) as (w' & H1 & _ & H2).
  exists w'. split; [exact H1|exact H2].
Defined.

Lemma warning_fires_when_the_window_opens_witness :
  timers monitor_world = []
  /\ fst (getTimeUntilExpiry example_platform token_ten_minutes monitor_world)
     = Ok (Some (Num 600000))
  /\ 600000 <= 2147483647
  /\ exists w2,
      advance 2 300000
        (snd (startMonitoring example_platform token_ten_minutes
                monitor_world)) = Some w2
      /\ effects w2 = [(300000, Shown (ExpiryWarning 5))].
Proof.
  split; [reflexivity|]. split; [reflexivity|]. split; [lia|].
  destruct (warning_fires_when_the_window_opens example_platform
              token_ten_minutes monitor_world 600000 eq_refl eq_refl)
    as (w2 & H1 & H2 & _);
    [reflexivity|discriminate|reflexivity|reflexivity|discriminate|].
  exists w2. split; [exact H1|exact H2].
Defined.

End TokenMoreWitnesses.

(** ** Authentication service *)

Section AuthFacts.
Import JS Auth.
Variable P : Platform.

Ltac storage_unfold :=
  unfold Storage.getItem, Storage.setItem, Storage.removeItem, Storage.clear,
    Storage.try_local_else_memory, Storage.update_memory,
    Storage.localStorage_getItem, Storage.localStorage_setItem,
    Storage.localStorage_removeItem, Storage.localStorage_clear, try_catch,
    bind, ret, gets, modify, Storage.console_log, Storage.ls_call,
    Storage.set_this, Storage.set_localStorage in *.

Lemma setItem_returns key value sw : fst (Storage.setItem key value sw) = Ok tt.
Proof.
  storage_unfold; simpl. destruct (Storage.isAvailable (Storage.this sw)); simpl;
    try (destruct (Storage.ls_faults (Storage.localStorage sw)) as [|[] rest];
         simpl); reflexivity.
Qed.

Lemma isTokenExpired_at token tw e :
  TokenMonitor.token_expiry P token = Ok (Some (Num e)) ->
  0 <= TokenMonitor.Date_now tw ->
  TokenMonitor.isTokenExpired P token tw
  = (Ok (bool_decide (e <= TokenMonitor.Date_now tw)), tw).
Proof.
  intros He Hnow.
  rewrite isTokenExpired_eq, He, (token_expiry_some_decodes _ _ _ He). simpl.
  do 2 f_equal. destruct (e =? 0) eqn:E0.
  - apply Z.eqb_eq in E0. symmetry. apply bool_decide_eq_true. lia.
  - destruct (e - TokenMonitor.Date_now tw <=? 0) eqn:E; symmetry.
    + apply bool_decide_eq_true. apply Z.leb_le in E. lia.
    + apply bool_decide_eq_false. apply Z.leb_gt in E. lia.
Qed.

Lemma startMonitoring_expired token tw e :
  TokenMonitor.token_expiry P token = Ok (Some (Num e)) ->
  0 <= TokenMonitor.Date_now tw ->
  e <= TokenMonitor.Date_now tw ->
  TokenMonitor.startMonitoring P token tw
  = (Ok tt, TokenMonitor.stopMonitoring tw).
Proof.
  intros He Hnow Hpast.
  destruct (stopMonitoring_fields tw) as (_ & _ & _ & _ & _ & H6 & _).
  unfold TokenMonitor.startMonitoring, bind, modify. simpl.
  destruct (bool_decide (token = empty_string)); [reflexivity|].
  rewrite (isTokenExpired_at _ _ e He) by (rewrite H6; exact Hnow).
  rewrite bool_decide_eq_true_2 by (rewrite H6; exact Hpast). reflexivity.
Qed.

Lemma startMonitoring_live token tw e :
  TokenMonitor.token_expiry P token = Ok (Some (Num e)) ->
  0 <= TokenMonitor.Date_now tw ->
  TokenMonitor.Date_now tw < e ->
  fst (TokenMonitor.getTimeUntilExpiry P token tw)
  = Ok (Some (Num (e - TokenMonitor.Date_now tw))).
Proof.
  intros He Hnow Hfut. rewrite getTimeUntilExpiry_eq, He. simpl.
  replace (e =? 0) with false by (symmetry; apply Z.eqb_neq; lia).
  reflexivity.
Qed.

(** X15.  [setToken] with a credential that decodes to the expiry [e]:
    it returns normally, [getToken] gives the credential back, and
    [isAuthenticated] is true exactly when [e] is after [Date.now()]; the
    expiry timer is set in that case and not otherwise. *)
Theorem setToken_authenticates_until_expiry :
  forall (w : World) (t : string) (e : Z),
    fst (TokenMonitor.getTokenExpiry P t (tokenManager w))
    = Ok (Some (Num e)) ->
    0 <= TokenMonitor.Date_now (tokenManager w) ->
    let now := TokenMonitor.Date_now (tokenManager w) in
    let w' := snd (setToken P t w) in
    fst (setToken P t w) = Ok tt
    /\ fst (getToken w') = Ok (Some t)
    /\ fst (isAuthenticated P w') = Ok (bool_decide (now < e))
    /\ (e <= now ->
        TokenMonitor.logoutTimer (TokenMonitor.this (tokenManager w')) = None)
    /\ (now < e ->
        TokenMonitor.logoutTimer (TokenMonitor.this (tokenManager w')) <> None).
Proof.
  intros w t e He Hnow now w'. subst w' now.
  rewrite getTokenExpiry_eq in He. simpl in He.
  pose proof (setItem_returns "auth_token" t (storage w)) as Hset.
  pose proof (startMonitoring_Date_now P t (tokenManager w)) as Hclock.
  assert (Hrun : exists tw,
             TokenMonitor.startMonitoring P t (tokenManager w) = (Ok tt, tw)).
  { destruct (Z_le_gt_dec e (TokenMonitor.Date_now (tokenManager w))).
    - rewrite (startMonitoring_expired _ _ e He Hnow) by lia. eauto.
    - rewrite (startMonitoring_schedule P _ _ _
                 (startMonitoring_live _ _ e He Hnow ltac:(lia))) by lia.
      eauto. }
  destruct Hrun as [tw Hrun]. rewrite Hrun in Hclock. simpl in Hclock.
  unfold setToken, set_token, on_storage, on_tokenManager, bind, modify.
  simpl. destruct (Storage.setItem "auth_token" t (storage w)) as [r sw].
  simpl in Hset. subst r. simpl. rewrite Hrun. simpl.
  split; [reflexivity|]. split; [reflexivity|]. split.
  - unfold isAuthenticated, on_tokenManager, bind, gets. simpl.
    rewrite (isTokenExpired_at _ _ e He) by (rewrite Hclock; exact Hnow).
    simpl. unfold ret. simpl. f_equal. rewrite Hclock.
    destruct (Z_le_gt_dec e (TokenMonitor.Date_now (tokenManager w))).
    + rewrite bool_decide_eq_true_2, bool_decide_eq_false_2 by lia.
      reflexivity.
    + rewrite bool_decide_eq_false_2, bool_decide_eq_true_2 by lia.
      reflexivity.
  - split.
    + intros Hpast.
      rewrite (startMonitoring_expired _ _ e He Hnow Hpast) in Hrun.
      inversion Hrun; subst.
      destruct (stopMonitoring_fields (tokenManager w)) as (_ & _ & H3 & _).
      exact H3.
    + intros Hfut.
      rewrite (startMonitoring_schedule P _ _ _
                 (startMonitoring_live _ _ e He Hnow Hfut)) in Hrun by lia.
      inversion Hrun; subst. unfold schedule, TokenMonitor.setTimeout.
      destruct (_ <? _); destruct (_ <? _); simpl; discriminate.
Qed.

(** X16.  [setToken] with a malformed credential returns normally and
    keeps it: [getToken] gives it back, while [isAuthenticated] is false,
    [isTokenExpired] is true and no timer is set. *)
Theorem malformed_token_is_kept_but_not_authenticated :
  forall (w : World) (t : string),
    TokenMonitor.malformed P t = true ->
    let w' := snd (setToken P t w) in
    fst (setToken P t w) = Ok tt
    /\ fst (getToken w') = Ok (Some t)
    /\ fst (isAuthenticated P w') = Ok false
    /\ fst (isTokenExpired P w') = Ok true
    /\ TokenMonitor.next_timer (tokenManager w')
       = TokenMonitor.next_timer (tokenManager w).
Proof.
  intros w t Hm w'. subst w'.
  pose proof (setItem_returns "auth_token" t (storage w)) as Hset.
  pose proof (malformed_no_expiry P t Hm) as He.
  assert (Hx : forall tw, fst (TokenMonitor.isTokenExpired P t tw) = Ok true).
  { intros tw. rewrite isTokenExpired_eq, He. reflexivity. }
  assert (Hrun : fst (TokenMonitor.startMonitoring P t (tokenManager w)) = Ok tt
                 /\ TokenMonitor.next_timer
                      (snd (TokenMonitor.startMonitoring P t (tokenManager w)))
                    = TokenMonitor.next_timer (tokenManager w)).
  { destruct (stopMonitoring_fields (tokenManager w)) as (_ & _ & _ & H4 & _).
    unfold TokenMonitor.startMonitoring, bind, modify. simpl.
    destruct (bool_decide (t = empty_string)); [simpl; auto|].
    rewrite isTokenExpired_eq, He. simpl.
    destruct (after_decode_frame P t
                (TokenMonitor.stopMonitoring (tokenManager w))) as (_ & _ & H).
    split; [reflexivity|]. congruence. }
  destruct Hrun as [Hok Hnext].
  unfold setToken, set_token, on_storage, on_tokenManager, bind, modify.
  simpl. destruct (Storage.setItem "auth_token" t (storage w)) as [r sw].
  simpl in Hset. subst r. simpl.
  destruct (TokenMonitor.startMonitoring P t (tokenManager w)) as [r tw].
  simpl in Hok, Hnext. subst r. simpl.
  split; [reflexivity|]. split; [reflexivity|].
  unfold isAuthenticated, isTokenExpired, on_tokenManager, bind, gets.
  cbn [token tokenManager storage fst snd].
  specialize (Hx tw).
  destruct (TokenMonitor.isTokenExpired P t tw) as [rx tx] eqn:Ex.
  simpl in Hx. subst rx. simpl. split; [reflexivity|]. split; [|exact Hnext].
  destruct (decide (t = empty_string)); [reflexivity|].
  simpl. rewrite Ex. reflexivity.
Qed.


Lemma Ok_inj {A} (a b : A) : Ok a = Ok b -> a = b.
Proof. congruence. Qed.

Lemma getItem_returns key sw : exists v, fst (Storage.getItem key sw) = Ok v.
Proof.
  storage_unfold; simpl. destruct (Storage.isAvailable (Storage.this sw)); simpl;
    try (destruct (Storage.ls_faults (Storage.localStorage sw)) as [|[] rest];
         simpl); eauto.
Qed.

Lemma on_tokenManager_frame {A} (m : M TokenMonitor.World A) w :
  token (snd (on_tokenManager m w)) = token w
  /\ storage (snd (on_tokenManager m w)) = storage w.
Proof.
  unfold on_tokenManager. destruct (m (tokenManager w)). simpl. auto.
Qed.

Lemma setup_frame w :
  token (snd (setupTokenExpiryHandling P w)) = token w
  /\ storage (snd (setupTokenExpiryHandling P w)) = storage w.
Proof.
  unfold setupTokenExpiryHandling, on_tokenManager, bind, modify, gets, ret.
  simpl. destruct (token w) as [tok|]; simpl; [|auto].
  destruct (decide (tok = empty_string)); simpl; [auto|].
  destruct (TokenMonitor.startMonitoring P tok _) as [r tw]. simpl. auto.
Qed.

Lemma constructor_reads_storage w :
  storage (snd (constructor P w)) = snd (Storage.getItem "auth_token" (storage w))
  /\ Ok (token (snd (constructor P w)))
     = fst (Storage.getItem "auth_token" (storage w)).
Proof.
  destruct (getItem_returns "auth_token" (storage w)) as [v Hv].
  unfold constructor, set_token, on_storage, bind, modify.
  destruct (Storage.getItem "auth_token" (storage w)) as [r sw].
  simpl in Hv. subst r. cbn [fst snd].
  match goal with
  | |- context [setupTokenExpiryHandling P ?w0] =>
      destruct (setup_frame w0) as [Ht Hs]
  end.
  simpl in *. rewrite Ht, Hs. auto.
Qed.

Lemma setToken_writes_storage t w :
  storage (snd (setToken P t w))
  = snd (Storage.setItem "auth_token" t (storage w)).
Proof.
  pose proof (setItem_returns "auth_token" t (storage w)) as Hset.
  unfold setToken, set_token, on_storage, bind, modify.
  cbn [fst snd token storage tokenManager].
  destruct (Storage.setItem "auth_token" t (storage w)) as [r sw].
  simpl in Hset. subst r. cbn [fst snd].
  match goal with
  | |- context [on_tokenManager ?m ?w0] =>
      destruct (on_tokenManager_frame m w0) as [Ht Hs];
      destruct (on_tokenManager m w0) as [r w1]
  end.
  simpl in *. exact Hs.
Qed.

(** X17.  A credential set on one page load is the service's token on
    the next page load when the browser store works; when the browser
    store throws on both loads the credential was only in the in-memory
    map and the next page starts without a token. *)
Theorem session_survives_reload_only_with_working_store :
  forall (items : gmap string string) (t : string) (now1 now2 : Z)
         (rest : list bool),
    let first_page faults :=
      snd (setToken P t
             (snd (page_load P {| Storage.ls_items := items;
                                  Storage.ls_faults := faults |} now1))) in
    let reload faults :=
      snd (page_load P (Storage.localStorage (storage (first_page faults)))
             now2) in
    token (reload []) = Some t
    /\ token (reload (true :: true :: rest)) = None.
Proof.
  intros items t now1 now2 rest first_page reload.
  subst reload first_page. cbn beta. unfold page_load.
  split.
  - match goal with
    | |- token (snd (constructor P ?w)) = _ =>
        destruct (constructor_reads_storage w) as [_ H]
    end.
    apply Ok_inj. rewrite H. clear H. cbn [storage].
    rewrite setToken_writes_storage.
    match goal with
    | |- context [constructor P ?w] =>
        destruct (constructor_reads_storage w) as [H _]
    end.
    rewrite H. clear H. cbn [storage].
    unfold Storage.StorageService_new, Storage.constructor,
      Storage.checkAvailability.
    storage_unfold. simpl.
    rewrite lookup_delete_ne by discriminate.
    rewrite lookup_insert_ne by discriminate.
    rewrite lookup_insert_eq. reflexivity.
  - match goal with
    | |- token (snd (constructor P ?w)) = _ =>
        destruct (constructor_reads_storage w) as [_ H]
    end.
    apply Ok_inj. rewrite H. clear H. cbn [storage].
    rewrite setToken_writes_storage.
    match goal with
    | |- context [constructor P ?w] =>
        destruct (constructor_reads_storage w) as [H _]
    end.
    rewrite H. clear H. cbn [storage].
    unfold Storage.StorageService_new, Storage.constructor,
      Storage.checkAvailability.
    storage_unfold. simpl. reflexivity.
Qed.

(** X18.  After [logout]: it returned normally, there is no token,
    [isAuthenticated] is false, the token manager is as [stopMonitoring]
    leaves it, the stored credential reads as null (unless the browser
    store throws), and [getCurrentUser] throws without asking the
    server. *)
Theorem logout_ends_the_session :
  forall (User : Type) (reply : UserReply User) (w : World),
    let w' := snd (logout w) in
    fst (logout w) = Ok tt
    /\ fst (getToken w') = Ok None
    /\ fst (isAuthenticated P w') = Ok false
    /\ tokenManager w' = TokenMonitor.stopMonitoring (tokenManager w)
    /\ (Storage.isAvailable (Storage.this (storage w)) = false
        \/ Storage.ls_faults (Storage.localStorage (storage w)) = [] ->
        fst (Storage.getItem "auth_token" (storage w')) = Ok None)
    /\ getCurrentUser reply w' = (Throw "No authentication token", w').
Proof.
  intros User reply w w'. subst w'.
  pose proof (removeItem_returns "auth_token" (storage w)) as Hrm.
  pose proof (removeItem_then_getItem "auth_token" (storage w)) as Hget.
  unfold logout, set_token, on_storage, on_tokenManager, bind, modify.
  cbn [fst snd token storage tokenManager].
  destruct (Storage.removeItem "auth_token" (storage w)) as [r sw].
  simpl in Hrm, Hget. subst r. simpl.
  repeat split; auto.
Qed.

(** X19.  [getCurrentUser] with a token: a 401 answer logs out and
    throws; any other failure status throws and leaves the session as it
    is; a good answer returns the user and changes nothing. *)
Theorem getCurrentUser_logs_out_on_401 :
  forall (User : Type) (user : User) (w : World) (t : string) (status : Z),
    token w = Some t ->
    t <> empty_string ->
    getCurrentUser (UserNotOk 401) w
      = (@Throw User "Failed to get current user", snd (logout w))
    /\ (status <> 401 ->
        getCurrentUser (UserNotOk status) w
          = (@Throw User "Failed to get current user", w))
    /\ getCurrentUser (UserOk user) w = (Ok user, w).
Proof.
  intros User user w t status Ht Hne.
  pose proof (removeItem_returns "auth_token" (storage w)) as Hrm.
  unfold getCurrentUser, bind, gets, throw, ret. simpl. rewrite Ht.
  rewrite bool_decide_eq_false_2 by exact Hne.
  split; [|split; [|reflexivity]].
  - unfold logout, set_token, on_storage, on_tokenManager, bind, modify.
    cbn [fst snd token storage tokenManager].
    destruct (Storage.removeItem "auth_token" (storage w)) as [r sw].
    simpl in Hrm. subst r. reflexivity.
  - intros Hs. replace (status =? 401) with false
      by (symmetry; apply Z.eqb_neq; exact Hs).
    reflexivity.
Qed.

End AuthFacts.

Section AuthWitnesses.
Import JS Auth Examples AuthExamples.

Lemma setToken_authenticates_until_expiry_witness :
  fst (TokenMonitor.getTokenExpiry example_platform token_ten_minutes
         (tokenManager fresh_page))
  = Ok (Some (Num 1700000600000))
  /\ 0 <= TokenMonitor.Date_now (tokenManager fresh_page)
  /\ fst (isAuthenticated example_platform
            (snd (setToken example_platform token_ten_minutes fresh_page)))
     = Ok true.
Proof.
  split; [reflexivity|]. split; [vm_compute; discriminate|].
  exact (proj1 (proj2 (proj2
           (setToken_authenticates_until_expiry example_platform fresh_page
              token_ten_minutes 1700000600000 eq_refl
              ltac:(vm_compute; discriminate))))).
Defined.

Lemma malformed_token_is_kept_but_not_authenticated_witness :
  TokenMonitor.malformed example_platform token_not_base64 = true
  /\ fst (isAuthenticated example_platform
            (snd (setToken example_platform token_not_base64 fresh_page)))
     = Ok false.
Proof.
  split; [reflexivity|].
  exact (proj1 (proj2 (proj2
           (malformed_token_is_kept_but_not_authenticated example_platform
              fresh_page token_not_base64 eq_refl)))).
Defined.

Lemma logout_ends_the_session_witness :
  Storage.ls_faults (Storage.localStorage (storage fresh_page)) = []
  /\ fst (Storage.getItem "auth_token" (storage (snd (logout fresh_page))))
     = Ok None.
Proof.
  split; [reflexivity|].
  destruct (logout_ends_the_session example_platform unit (UserNotOk 500)
              fresh_page) as (_ & _ & _ & _ & H & _).
  apply H. right. reflexivity.
Defined.

Lemma getCurrentUser_logs_out_on_401_witness :
  token fresh_page = Some token_ten_minutes
  /\ token_ten_minutes <> empty_string
  /\ getCurrentUser (UserNotOk 401) fresh_page
     = (@Throw unit "Failed to get current user", snd (logout fresh_page)).
Proof.
  assert (H : token fresh_page = Some token_ten_minutes) by reflexivity.
  assert (H0 : token_ten_minutes <> empty_string) by discriminate.
  split; [exact H|]. split; [exact H0|].
  exact (proj1 (getCurrentUser_logs_out_on_401 unit tt fresh_page
                  token_ten_minutes 401 H H0)).
Defined.

End AuthWitnesses.


(** ** Request interceptor *)

Section RequestFacts.
Import ApiRequest.
Variable P : JS.Platform.

Ltac storage_unfold :=
  unfold Storage.getItem, Storage.setItem, Storage.removeItem, Storage.clear,
    Storage.try_local_else_memory, Storage.update_memory,
    Storage.localStorage_getItem, Storage.localStorage_setItem,
    Storage.localStorage_removeItem, Storage.localStorage_clear, try_catch,
    bind, ret, gets, modify, Storage.console_log, Storage.ls_call,
    Storage.set_this, Storage.set_localStorage in *.

Lemma setItem_then_getItem key value sw :
  Storage.isAvailable (Storage.this sw) = false
  \/ Storage.ls_faults (Storage.localStorage sw) = [] ->
  value <> empty_string ->
  fst (Storage.getItem key (snd (Storage.setItem key value sw)))
  = Ok (Some value).
Proof.
  destruct sw as [[av mem] [items faults] con]. simpl.
  intros [E|E] Hne; subst; [|destruct av]; storage_unfold; simpl;
    rewrite lookup_insert_eq; unfold Storage.or_null;
    try (destruct (decide (value = empty_string)); [contradiction|]);
    reflexivity.
Qed.

(** X20.  With a browser store that does not throw, or with the
    in-memory fallback: after [setToken t] with a [t] that is not the
    empty string every request leaves the interceptor with the header
    Authorization: Bearer t, and after [logout] the interceptor leaves
    the request as it was. *)
Theorem requests_carry_the_credential_of_the_session :
  forall (w : Auth.World) (config : RequestConfig) (t : string),
    Storage.isAvailable (Storage.this (Auth.storage w)) = false
    \/ Storage.ls_faults (Storage.localStorage (Auth.storage w)) = [] ->
    t <> empty_string ->
    fst (onRequest config (Auth.storage (snd (Auth.setToken P t w))))
    = Ok {| url := url config;
            headers := <["Authorization" := "Bearer " +:+ t]>
                         (headers config) |}
    /\ fst (onRequest config (Auth.storage (snd (Auth.logout w))))
       = Ok config.
Proof.
  intros w config t Hok Hne. split.
  - rewrite setToken_writes_storage. unfold onRequest, bind.
    pose proof (setItem_then_getItem "auth_token" t _ Hok Hne) as H.
    destruct (Storage.getItem "auth_token" _) as [r sw]. simpl in H. subst r.
    destruct (decide (t = empty_string)); [contradiction|]. reflexivity.
  - pose proof (removeItem_returns "auth_token" (Auth.storage w)) as Hrm.
    pose proof (removeItem_then_getItem "auth_token" (Auth.storage w) Hok)
      as Hget.
    unfold Auth.logout, Auth.set_token, Auth.on_storage, Auth.on_tokenManager,
      bind, modify.
    cbn [fst snd Auth.token Auth.storage Auth.tokenManager].
    destruct (Storage.removeItem "auth_token" (Auth.storage w)) as [r sw].
    simpl in Hrm, Hget. subst r. simpl. unfold onRequest, bind.
    destruct (Storage.getItem "auth_token" sw) as [r' sw']. simpl in Hget.
    subst r'. reflexivity.
Qed.
End RequestFacts.

Section RequestWitnesses.
Import ApiRequest Examples AuthExamples.

Lemma requests_carry_the_credential_of_the_session_witness :
  Storage.ls_faults (Storage.localStorage (Auth.storage fresh_page)) = []
  /\ token_ten_minutes <> empty_string
  /\ fst (onRequest {| url := "/feedback/"; headers := ∅ |}
            (Auth.storage
               (snd (Auth.setToken example_platform token_ten_minutes
                       fresh_page))))
     = Ok {| url := "/feedback/";
             headers := <["Authorization" := "Bearer " +:+ token_ten_minutes]> ∅ |}.
Proof.
  assert (H : Storage.ls_faults (Storage.localStorage (Auth.storage fresh_page))
              = []) by reflexivity.
  assert (H0 : token_ten_minutes <> empty_string) by discriminate.
  split; [exact H|]. split; [exact H0|].
  exact (proj1 (requests_carry_the_credential_of_the_session example_platform
                  fresh_page {| url := "/feedback/"; headers := ∅ |}
                  token_ten_minutes (or_intror H) H0)).
Defined.

End RequestWitnesses.

(** ** Toggles, renders and deletes *)

Section AppMore.
Import App AppHandlers.


(** X22.  Two toggles of one entry without a render between them both
    start from the same rendered entry: the cache is as after one toggle,
    though two requests are sent.  With a render between them the second
    toggle undoes the first. *)
Theorem second_click_before_render_repeats_the_first :
  forall (fs : list Feedback) (i : Z) (target : Feedback),
    find_feedback fs i = Some target ->
    let once := run_events [Toggle i] (start fs) in
    let twice := run_events [Toggle i; Toggle i] (start fs) in
    let rendered_between := run_events [Toggle i; Render; Toggle i] (start fs) in
    feedbacks (App.app twice) = feedbacks (App.app once)
    /\ length (calls twice) = 2%nat
    /\ votes_of i rendered_between
       = Some (upvotes target, has_upvoted target)
    /\ (NoDup (id <$> fs) -> feedbacks (App.app rendered_between) = fs).
Proof.
  intros fs i target Hfind once twice rendered_between.
  subst once twice rendered_between. unfold run_events, start.
  simpl. unfold handleUpvoteFeedback.
  repeat (progress (simpl; rewrite ?find_feedback_set_votes, ?Hfind)).
  rewrite !set_votes_set_votes.
  split; [reflexivity|]. split; [reflexivity|].
  assert (Hv : (if negb (has_upvoted target)
                then (if has_upvoted target then upvotes target - 1
                      else upvotes target + 1) - 1
                else (if has_upvoted target then upvotes target - 1
                      else upvotes target + 1) + 1) = upvotes target).
  { destruct (has_upvoted target); simpl; lia. }
  rewrite Hv, negb_involutive. split.
  - unfold votes_of. simpl. rewrite find_feedback_set_votes, Hfind.
    reflexivity.
  - intros Hnd. apply set_votes_restore; assumption.
Qed.

Lemma set_votes_absent i u h l :
  find_feedback l i = None -> set_votes i u h l = l.
Proof.
  unfold find_feedback, set_votes. intros Hnone.
  rewrite <- (list_fmap_id l) at 2. apply list_fmap_ext. intros k f Hk.
  simpl. destruct (id f =? i) eqn:E; [|reflexivity].
  exfalso. apply list_elem_of_lookup_2 in Hk. apply list_elem_of_In in Hk.
  pose proof (find_none _ _ Hnone f Hk) as Hf. simpl in Hf. congruence.
Qed.

Lemma find_feedback_filter i j l :
  find_feedback (filter (fun f => id f ≠ i) l) j
  = if decide (j = i) then None else find_feedback l j.
Proof.
  unfold find_feedback. induction l as [|f l IH]; simpl.
  - destruct (decide (j = i)); reflexivity.
  - rewrite filter_cons. destruct (decide (id f ≠ i)) as [Hne|Heq]; simpl.
    + destruct (id f =? j) eqn:E; [|exact IH].
      apply Z.eqb_eq in E. destruct (decide (j = i)); [lia|reflexivity].
    + rewrite IH. destruct (decide (j = i)) as [->|Hji]; [reflexivity|].
      destruct (Z.eqb_spec (id f) j) as [Hj|Hj]; [|reflexivity].
      exfalso. apply Heq. congruence.
Qed.

(** X23.  A confirmed delete that the server accepts removes the entry
    and no other; an answer to an earlier toggle of that entry, good or
    bad, that arrives afterwards does not bring it back.  A delete that
    is not confirmed changes nothing, and one the server refuses keeps
    the list. *)
Theorem delete_removes_entry_for_good :
  forall (fs : list Feedback) (i j : Z) (target : Feedback)
         (late : Exc UpvoteResponse) (err : string),
    find_feedback fs i = Some target ->
    let toggled := run_events [Toggle i] (start fs) in
    let deleted :=
      {| App.app := handleDeleteFeedback i true (Ok tt) (App.app toggled);
         rendered := rendered toggled; calls := calls toggled |} in
    let final := run_events [Respond 0 late] deleted in
    votes_of i deleted = None
    /\ (j <> i -> votes_of j deleted = votes_of j toggled)
    /\ feedbacks (App.app final) = feedbacks (App.app deleted)
    /\ handleDeleteFeedback i false (Ok tt) (App.app toggled) = App.app toggled
    /\ feedbacks (handleDeleteFeedback i true (Throw err) (App.app toggled))
       = feedbacks (App.app toggled).
Proof.
  intros fs i j target late err Hfind toggled deleted final.
  subst final deleted toggled. unfold run_events, start, votes_of. simpl.
  unfold handleUpvoteFeedback. rewrite Hfind. simpl.
  rewrite !find_feedback_filter. rewrite decide_True by reflexivity.
  split; [reflexivity|]. split.
  - intros Hne. rewrite decide_False by exact Hne. reflexivity.
  - split; [|split; reflexivity].
    destruct late as [response|e]; simpl; apply set_votes_absent;
      rewrite find_feedback_filter, decide_True by reflexivity; reflexivity.
Qed.

End AppMore.

Section AppMoreWitnesses.
Import App AppHandlers Examples.


Lemma second_click_before_render_repeats_the_first_witness :
  find_feedback [feedback1] 1 = Some feedback1
  /\ feedbacks (app (run_events [Toggle 1; Toggle 1] (start [feedback1])))
     = feedbacks (app (run_events [Toggle 1] (start [feedback1]))).
Proof.
  split; [reflexivity|].
  exact (proj1 (second_click_before_render_repeats_the_first [feedback1] 1
                  feedback1 eq_refl)).
Defined.

Lemma delete_removes_entry_for_good_witness :
  find_feedback [feedback1] 1 = Some feedback1
  /\ votes_of 1
       {| app := handleDeleteFeedback 1 true (Ok tt)
                   (app (run_events [Toggle 1] (start [feedback1])));
          rendered := rendered (run_events [Toggle 1] (start [feedback1]));
          calls := calls (run_events [Toggle 1] (start [feedback1])) |}
     = None.
Proof.
  split; [reflexivity|].
  exact (proj1 (delete_removes_entry_for_good [feedback1] 1 2 feedback1
                  (Ok response_first) "Network Error" eq_refl)).
Defined.

End AppMoreWitnesses.

(** ** Feedback form *)

Section FormFacts.
Import Form.

Lemma trimStart_head t c : head (trimStart t) = Some c -> is_white c = false.
Proof.
  induction t as [|x t IH]; simpl; [discriminate|].
  destruct (is_white x) eqn:E; [exact IH|].
  simpl. intros [= <-]. exact E.
Qed.

Lemma trimStart_fixed t :
  (forall c, head t = Some c -> is_white c = false) -> trimStart t = t.
Proof.
  destruct t as [|x t]; [reflexivity|]. simpl. intros H.
  rewrite (H x eq_refl). reflexivity.
Qed.

Lemma trimStart_suffix t : exists pre, t = pre ++ trimStart t.
Proof.
  induction t as [|x t [pre IH]]; simpl; [exists []; reflexivity|].
  destruct (is_white x).
  - exists (x :: pre). simpl. f_equal. exact IH.
  - exists []. reflexivity.
Qed.

Lemma trimStart_length t : (length (trimStart t) <= length t)%nat.
Proof.
  destruct (trimStart_suffix t) as [pre H]. rewrite H at 2.
  rewrite length_app. lia.
Qed.

Lemma trimStart_white t :
  Forall (fun c => is_white c = true) t -> trimStart t = [].
Proof.
  induction 1 as [|x t Hx _ IH]; simpl; [reflexivity|]. rewrite Hx. exact IH.
Qed.

Lemma trimStart_last t c :
  last (trimStart t) = Some c -> last t = Some c.
Proof.
  destruct (trimStart_suffix t) as [pre H]. intros Hl.
  rewrite H. destruct (trimStart t) as [|x r] eqn:E; [discriminate|].
  rewrite last_app. rewrite Hl. reflexivity.
Qed.

Lemma trim_length t : (length (trim t) <= length t)%nat.
Proof.
  unfold trim. rewrite length_reverse.
  etransitivity; [apply trimStart_length|]. rewrite length_reverse.
  apply trimStart_length.
Qed.

Lemma trim_last t c : last (trim t) = Some c -> is_white c = false.
Proof.
  unfold trim. rewrite last_reverse. apply trimStart_head.
Qed.

Lemma trim_head t c : head (trim t) = Some c -> is_white c = false.
Proof.
  unfold trim. rewrite head_reverse. intros H.
  apply trimStart_last in H. rewrite last_reverse in H.
  apply trimStart_head in H. exact H.
Qed.

Lemma trim_fixed t :
  (forall c, head t = Some c -> is_white c = false) ->
  (forall c, last t = Some c -> is_white c = false) ->
  trim t = t.
Proof.
  intros Hh Hl. unfold trim. rewrite (trimStart_fixed t Hh).
  rewrite trimStart_fixed; [apply reverse_involutive|].
  intros c. rewrite head_reverse. apply Hl.
Qed.

(** X24.  The form rejects a text of white space only and a text of more
    than 1000 code units: the parent is not called, the text stays and a
    message is shown.  Whatever it hands to the parent is the trimmed
    text: not empty, at most 1000 code units, with no white space at
    either end. *)
Theorem form_submits_only_trimmed_text :
  forall (onSubmit : Text -> Exc unit) (st : FormState),
    let out := handleSubmit onSubmit st in
    (Forall (fun c => is_white c = true) (text st)
     \/ (1000 < length (text st))%nat ->
     fst out = None
     /\ text (snd out) = text st
     /\ error (snd out) <> empty_string)
    /\ (forall s, fst out = Some s ->
        s = trim (text st)
        /\ s <> []
        /\ (length s <= 1000)%nat
        /\ trim s = s
        /\ (forall c, head s = Some c -> is_white c = false)
        /\ (forall c, last s = Some c -> is_white c = false)).
Proof.
  intros onSubmit st out. subst out. unfold handleSubmit.
  cbn [text setError]. split.
  - intros [Hw|Hlen].
    + assert (Ht : trim (text st) = [])
        by (unfold trim; rewrite (trimStart_white _ Hw); reflexivity).
      rewrite bool_decide_eq_true_2 by exact Ht. cbn.
      repeat split; discriminate.
    + destruct (bool_decide (trim (text st) = []));
        [cbn; repeat split; discriminate|].
      replace (1000 <? length (text st))%nat with true
        by (symmetry; apply Nat.ltb_lt; exact Hlen).
      cbn. repeat split; discriminate.
  - intros s. destruct (bool_decide (trim (text st) = [])) eqn:E;
      [discriminate|].
    destruct (1000 <? length (text st))%nat eqn:El; [discriminate|].
    intros Hs.
    assert (Hs' : s = trim (text st))
      by (destruct (onSubmit (trim (text st))); cbn [fst] in Hs; congruence).
    subst s. clear Hs.
    apply bool_decide_eq_false in E. apply Nat.ltb_ge in El.
    pose proof (trim_length (text st)).
    split; [reflexivity|]. split; [exact E|]. split; [lia|].
    split; [|split; [apply trim_head|apply trim_last]].
    apply trim_fixed; [apply trim_head|apply trim_last].
Qed.

End FormFacts.

(** ** Feedback list *)

Section ListFacts.
Import App FeedbackList.

Lemma descending_bound b rest x :
  descending (b :: rest) -> x ∈ b :: rest -> upvotes x <= upvotes b.
Proof.
  revert b. induction rest as [|c rest IH]; intros b Hd Hx.
  - apply list_elem_of_singleton in Hx. subst. lia.
  - apply elem_of_cons in Hx. destruct Hx as [->|Hx]; [lia|].
    destruct Hd as [Hcb Hd]. specialize (IH c Hd Hx). lia.
Qed.

Lemma descending_tail b rest : descending (b :: rest) -> descending rest.
Proof. destruct rest; simpl; tauto. Qed.

Lemma insert_sorted_perm a l : insert_sorted a l ≡ₚ a :: l.
Proof.
  induction l as [|b l IH]; simpl; [reflexivity|].
  destruct (upvotes b <? upvotes a); [reflexivity|].
  rewrite IH. apply Permutation_swap.
Qed.

Lemma insert_sorted_descending a l :
  descending l -> descending (insert_sorted a l).
Proof.
  induction l as [|b l IH]; intros Hd; [exact I|].
  cbn [insert_sorted].
  destruct (upvotes b <? upvotes a) eqn:E.
  - apply Z.ltb_lt in E. split; [lia|exact Hd].
  - apply Z.ltb_ge in E. specialize (IH (descending_tail _ _ Hd)).
    destruct l as [|c l]; [split; [exact E|exact I]|].
    cbn [insert_sorted] in *. destruct Hd as [Hcb Hd].
    destruct (upvotes c <? upvotes a); split; auto.
Qed.

Lemma insert_sorted_stable a l k :
  descending l ->
  filter (fun f => upvotes f = k) (insert_sorted a l)
  = filter (fun f => upvotes f = k) l
    ++ (if decide (upvotes a = k) then [a] else []).
Proof.
  induction l as [|b l IH]; intros Hd.
  - simpl. rewrite filter_cons, filter_nil.
    destruct (decide (upvotes a = k)); reflexivity.
  - cbn [insert_sorted]. destruct (upvotes b <? upvotes a) eqn:E.
    + apply Z.ltb_lt in E. rewrite (filter_cons _ a).
      destruct (decide (upvotes a = k)) as [Hk|Hk];
        [|rewrite app_nil_r; reflexivity].
      replace (filter (fun f => upvotes f = k) (b :: l)) with (@nil Feedback);
        [reflexivity|].
      symmetry. apply elem_of_nil_inv. intros x Hx.
      apply list_elem_of_filter in Hx. destruct Hx as [Hxk Hx].
      pose proof (descending_bound _ _ _ Hd Hx). lia.
    + rewrite !(filter_cons _ b), (IH (descending_tail _ _ Hd)).
      destruct (decide (upvotes b = k)); reflexivity.
Qed.

Lemma foldl_insert_facts fs : forall acc,
  descending acc ->
  let out := foldl (fun sorted a => insert_sorted a sorted) acc fs in
  out ≡ₚ acc ++ fs
  /\ descending out
  /\ forall k, filter (fun f => upvotes f = k) out
               = filter (fun f => upvotes f = k) acc
                 ++ filter (fun f => upvotes f = k) fs.
Proof.
  induction fs as [|a fs IH]; intros acc Hd; simpl.
  - rewrite app_nil_r. split; [reflexivity|]. split; [exact Hd|].
    intros k. rewrite app_nil_r. reflexivity.
  - destruct (IH (insert_sorted a acc) (insert_sorted_descending a acc Hd))
      as (Hp & Hs & Hf).
    split; [|split; [exact Hs|]].
    + rewrite Hp, insert_sorted_perm. simpl. apply Permutation_middle.
    + intros k. rewrite Hf, (insert_sorted_stable a acc k Hd), filter_cons.
      rewrite <- app_assoc. destruct (decide (upvotes a = k)); reflexivity.
Qed.

(** X25.  The list shown holds the entries given, each as often as given,
    in descending order of votes, and entries with equal votes keep the
    order in which they were given. *)
Theorem sortedFeedbacks_is_a_stable_descending_sort :
  forall (fs : list Feedback),
    sortedFeedbacks fs ≡ₚ fs
    /\ descending (sortedFeedbacks fs)
    /\ forall k, filter (fun f => upvotes f = k) (sortedFeedbacks fs)
                 = filter (fun f => upvotes f = k) fs.
Proof.
  intros fs. destruct (foldl_insert_facts fs [] I) as (Hp & Hs & Hf).
  split; [exact Hp|]. split; [exact Hs|]. intros k. apply Hf.
Qed.

End ListFacts.

(** ** Authentication provider *)

Section ProviderFacts.
Import AuthProvider.
Variable P : JS.Platform.
Context {User : Type}.

Lemma logout_eq (w : Auth.World) :
  Auth.logout w
  = (Ok tt,
     {| Auth.token := None;
        Auth.storage := snd (Storage.removeItem "auth_token" (Auth.storage w));
        Auth.tokenManager := TokenMonitor.stopMonitoring (Auth.tokenManager w) |}).
Proof.
  pose proof (removeItem_returns "auth_token" (Auth.storage w)) as Hrm.
  unfold Auth.logout, Auth.set_token, Auth.on_storage, Auth.on_tokenManager,
    bind, modify.
  cbn [fst snd Auth.token Auth.storage Auth.tokenManager].
  destruct (Storage.removeItem "auth_token" (Auth.storage w)) as [r sw].
  simpl in Hrm. subst r. reflexivity.
Qed.

Lemma getCurrentUser_eq (reply : Auth.UserReply User) w t :
  Auth.token w = Some t -> t <> empty_string ->
  Auth.getCurrentUser reply w
  = match reply with
    | Auth.UserFetchFails e => (Throw e, w)
    | Auth.UserNotOk status =>
        (Throw "Failed to get current user",
         if status =? 401 then snd (Auth.logout w) else w)
    | Auth.UserOk u => (Ok u, w)
    end.
Proof.
  intros Ht Hne. unfold Auth.getCurrentUser, bind, gets, throw, ret. simpl.
  rewrite Ht. rewrite bool_decide_eq_false_2 by exact Hne.
  destruct reply as [e|status|u]; try reflexivity.
  destruct (status =? 401); [|reflexivity].
  rewrite logout_eq. reflexivity.
Qed.

Lemma removeItem_keeps_store key sw :
  Storage.isAvailable (Storage.this sw) = false
  \/ Storage.ls_faults (Storage.localStorage sw) = [] ->
  Storage.isAvailable (Storage.this (snd (Storage.removeItem key sw))) = false
  \/ Storage.ls_faults
       (Storage.localStorage (snd (Storage.removeItem key sw))) = [].
Proof.
  destruct sw as [[av mem] [items faults] con]. simpl.
  intros [E|E]; subst.
  - left. reflexivity.
  - destruct av; [right|left]; reflexivity.
Qed.

Lemma setToken_token t w :
  Auth.token (snd (Auth.setToken P t w)) = Some t
  /\ fst (Auth.setToken P t w)
     = fst (TokenMonitor.startMonitoring P t (Auth.tokenManager w)).
Proof.
  pose proof (setItem_returns "auth_token" t (Auth.storage w)) as Hset.
  unfold Auth.setToken, Auth.set_token, Auth.on_storage, Auth.on_tokenManager,
    bind, modify.
  cbn [fst snd Auth.token Auth.storage Auth.tokenManager].
  destruct (Storage.setItem "auth_token" t (Auth.storage w)) as [r sw].
  simpl in Hset. subst r. cbn [fst snd Auth.token Auth.storage Auth.tokenManager].
  destruct (TokenMonitor.startMonitoring P t (Auth.tokenManager w)) as [r tw].
  simpl. auto.
Qed.

(** X26.  [initializeAuth] never throws and always ends with [isLoading]
    false.  Without a stored token nothing else changes.  With one, a good
    answer sets the user; any failure of the request, whatever its status,
    logs the service out (no token, monitoring stopped, the stored
    credential gone unless the browser store throws) while the provider
    keeps the token it had copied. *)
Theorem initialization_always_ends_loading :
  forall (reply : Auth.UserReply User) (p : ProviderState User)
         (w : Auth.World),
    let out := initializeAuth reply (p, w) in
    let p' := fst (snd out) in
    let w' := snd (snd out) in
    fst out = Ok tt
    /\ isLoading p' = false
    /\ (Auth.token w = None \/ Auth.token w = Some empty_string ->
        w' = w /\ user p' = user p /\ token p' = token p)
    /\ (forall t, Auth.token w = Some t -> t <> empty_string ->
        token p' = Some t
        /\ match reply with
           | Auth.UserOk u => user p' = Some u /\ w' = w
           | _ =>
               user p' = user p
               /\ Auth.token w' = None
               /\ Auth.tokenManager w'
                  = TokenMonitor.stopMonitoring (Auth.tokenManager w)
               /\ (Storage.isAvailable (Storage.this (Auth.storage w)) = false
                   \/ Storage.ls_faults
                        (Storage.localStorage (Auth.storage w)) = [] ->
                   fst (Storage.getItem "auth_token" (Auth.storage w'))
                   = Ok None)
           end).
Proof.
  intros reply p w out p' w'. subst w' p' out.
  unfold initializeAuth, try_finally, try_catch, bind, on_service,
    Auth.getToken, gets, setIsLoading, setToken, setUser, console_error,
    on_state, modify, ret.
  cbn [fst snd].
  destruct (Auth.token w) as [t|] eqn:Ht.
  - destruct (decide (t = empty_string)) as [He|Hne].
    + cbn. split; [reflexivity|]. split; [reflexivity|].
      split; [auto|]. intros t' [= <-] Hne. contradiction.
    + cbn [fst snd]. rewrite (getCurrentUser_eq reply w t Ht Hne).
      split; [destruct reply as [e|status|u]; try rewrite logout_eq;
              reflexivity|].
      split; [destruct reply as [e|status|u]; try rewrite logout_eq;
              reflexivity|].
      split; [intros [?|H]; [congruence|]; injection H as ->; contradiction|].
      intros t' [= <-] _.
      destruct reply as [e|status|u]; rewrite ?logout_eq; cbn.
      * repeat split; auto. intros Hok.
        apply removeItem_then_getItem. exact Hok.
      * split; [reflexivity|]. split; [reflexivity|].
        destruct (status =? 401); cbn.
        -- repeat split; auto.
           ++ apply stopMonitoring_idempotent.
           ++ intros Hok. apply removeItem_then_getItem.
              apply removeItem_keeps_store. exact Hok.
        -- repeat split; auto. intros Hok.
           apply removeItem_then_getItem. exact Hok.
      * auto.
  - cbn. split; [reflexivity|]. split; [reflexivity|].
    split; [auto|]. intros t' Ht'. discriminate.
Qed.

(** X27.  [login] of the provider, when the server accepts the
    credentials and monitoring starts normally: a good answer for the
    user completes the login; a failure of that second request rejects
    with the provider holding the token and no new user, and the service
    keeps the token too unless the status was 401.  A refused login
    changes nothing.  [logout] after a completed login clears user and
    token everywhere. *)
Theorem provider_login_outcomes :
  forall (p : ProviderState User) (w : Auth.World)
         (access_token token_type : string) (status : Z) (u : User)
         (detail : option string) (userReply : Auth.UserReply User),
    access_token <> empty_string ->
    fst (TokenMonitor.startMonitoring P access_token (Auth.tokenManager w))
    = Ok tt ->
    let run reply :=
      login P (Auth.LoginOk access_token token_type) reply (p, w) in
    let state reply := fst (snd (run reply)) in
    let service reply := snd (snd (run reply)) in
    (fst (run (Auth.UserOk u)) = Ok tt
     /\ user (state (Auth.UserOk u)) = Some u
     /\ token (state (Auth.UserOk u)) = Some access_token
     /\ Auth.token (service (Auth.UserOk u)) = Some access_token)
    /\ (status <> 401 ->
        fst (run (Auth.UserNotOk status)) = Throw "Failed to get current user"
        /\ user (state (Auth.UserNotOk status)) = user p
        /\ token (state (Auth.UserNotOk status)) = Some access_token
        /\ Auth.token (service (Auth.UserNotOk status)) = Some access_token)
    /\ (fst (run (Auth.UserNotOk 401)) = Throw "Failed to get current user"
        /\ user (state (Auth.UserNotOk 401)) = user p
        /\ token (state (Auth.UserNotOk 401)) = Some access_token
        /\ Auth.token (service (Auth.UserNotOk 401)) = None)
    /\ login P (Auth.LoginNotOk detail) userReply (p, w)
       = (Throw (Auth.detail_or detail "Login failed"), (p, w))
    /\ (let after := snd (logout (snd (run (Auth.UserOk u)))) in
        user (fst after) = None /\ token (fst after) = None
        /\ Auth.token (snd after) = None).
Proof.
  intros p w a ty status u detail userReply Hne Hstart run state service.
  subst service state run. cbn beta.
  destruct (setToken_token a w) as [Htok Hfst]. rewrite Hstart in Hfst.
  unfold login, logout, Auth.login, on_service, setToken, setUser, on_state.
  unfold bind, modify, ret, throw.
  cbn [fst snd].
  destruct (Auth.setToken P a w) as [r w1]. simpl in Htok, Hfst. subst r.
  cbn [fst snd].
  rewrite !(getCurrentUser_eq _ w1 a Htok Hne).
  cbn [fst snd]. rewrite !logout_eq. cbn.
  split; [auto|]. split.
  - intros Hs. replace (status =? 401) with false
      by (symmetry; apply Z.eqb_neq; exact Hs).
    auto.
  - auto.
Qed.

End ProviderFacts.

Section ProviderWitnesses.
Import AuthProvider Examples AuthExamples.

Lemma provider_login_outcomes_witness :
  token_ten_minutes <> empty_string
  /\ fst (TokenMonitor.startMonitoring example_platform token_ten_minutes
            (Auth.tokenManager fresh_page)) = Ok tt
  /\ fst (login example_platform (Auth.LoginOk token_ten_minutes "bearer")
            (Auth.UserOk "a@example.org")
            (ProviderState_new string, fresh_page))
     = Ok tt.
Proof.
  assert (H : token_ten_minutes <> empty_string) by discriminate.
  assert (H0 : fst (TokenMonitor.startMonitoring example_platform
                      token_ten_minutes (Auth.tokenManager fresh_page))
               = Ok tt) by reflexivity.
  split; [exact H|]. split; [exact H0|].
  exact (proj1 (proj1 (provider_login_outcomes example_platform
                         (ProviderState_new string) fresh_page
                         token_ten_minutes "bearer" 500 "a@example.org" None
                         (Auth.UserOk "a@example.org") H H0))).
Defined.

End ProviderWitnesses.

(** ** Submitting feedback *)

Section SubmitFacts.
Import App AppHandlers.

(** X28.  The form on top of [handleSubmitFeedback], for a text that
    passes the checks: the trimmed text is handed over; if the server
    creates the entry it is put at the head of the list and the form is
    emptied; if not, the error comes back to the form, which keeps the
    text and shows its message, and the list is unchanged.  Either way
    [isSubmitting] ends false. *)
Theorem submitted_text_reaches_the_list_or_stays_in_the_box :
  forall (create : Form.Text -> Exc Feedback) (app : AppState)
         (sub : Submission) (form : Form.FormState),
    Form.trim (Form.text form) <> [] ->
    (length (Form.text form) <= 1000)%nat ->
    let s := Form.trim (Form.text form) in
    let parent := handleSubmitFeedback (create s) (app, sub) in
    let out := Form.handleSubmit
                 (fun s => fst (handleSubmitFeedback (create s) (app, sub)))
                 form in
    fst out = Some s
    /\ isSubmitting (snd (snd parent)) = false
    /\ match create s with
       | Ok newFeedback =>
           feedbacks (fst (snd parent)) = newFeedback :: feedbacks app
           /\ refreshCounter (snd (snd parent)) = refreshCounter sub + 1
           /\ Form.text (snd out) = []
           /\ Form.charCount (snd out) = 0%nat
           /\ Form.error (snd out) = empty_string
       | Throw err =>
           fst parent = Throw err
           /\ feedbacks (fst (snd parent)) = feedbacks app
           /\ refreshCounter (snd (snd parent)) = refreshCounter sub
           /\ Form.text (snd out) = Form.text form
           /\ Form.error (snd out)
              = "Failed to submit feedback. Please try again."
       end.
Proof.
  intros create app sub form Hne Hlen s parent out. subst parent out s.
  unfold Form.handleSubmit. cbn [Form.text Form.setError].
  rewrite bool_decide_eq_false_2 by exact Hne.
  replace (1000 <? length (Form.text form))%nat with false
    by (symmetry; apply Nat.ltb_ge; exact Hlen).
  set (s0 := Form.trim (Form.text form)). clearbody s0.
  unfold handleSubmitFeedback.
  destruct (create s0) as [f|err]; cbn; repeat split; reflexivity.
Qed.

End SubmitFacts.

Section SubmitWitnesses.
Import App AppHandlers Examples.

Lemma submitted_text_reaches_the_list_or_stays_in_the_box_witness :
  let form := {| Form.text := [32; 104; 105; 32]%N;
                 Form.error := empty_string; Form.charCount := 4 |} in
  Form.trim (Form.text form) <> []
  /\ (length (Form.text form) <= 1000)%nat
  /\ fst (Form.handleSubmit
            (fun s => fst (handleSubmitFeedback (Ok feedback1)
                             (app (start []),
                              {| isSubmitting := true; refreshCounter := 0 |})))
            form)
     = Some [104; 105]%N.
Proof.
  intros form.
  assert (H : Form.trim (Form.text form) <> []) by discriminate.
  assert (H0 : (length (Form.text form) <= 1000)%nat) by (simpl; lia).
  split; [exact H|]. split; [exact H0|].
  exact (proj1 (submitted_text_reaches_the_list_or_stays_in_the_box
                  (fun _ => Ok feedback1) (app (start []))
                  {| isSubmitting := true; refreshCounter := 0 |} form H H0)).
Defined.

End SubmitWitnesses.
